(** * Topic: a broadcast router over a Redis publish/subscribe transport

    Shallow embedding of the [Topic] class (constructor, [enable], [disable],
    [publish], [subscribe], [unsubscribe]) together with the two helpers
    [serialize] and [deserialize] and the [channels] catalog.

    What the class calls but does not define is modelled as its environment:
    - [JSON.stringify] / [JSON.parse] are an interface ([JSON]); every theorem
      holds for every implementation of it, and [MiniJSON] is one instance
      used to run the methods on concrete inputs;
    - [Date.now()] reads the [clock] of the world;
    - the two [ioredis] clients are [Redis] records: the PUBLISH commands a
      client issued, the channels it is SUBSCRIBEd to, its ['message']
      listeners (Node's EventEmitter: registration order, no deduplication)
      and the messages routed to it that its event loop has not emitted yet;
    - functions are compared by reference, so every closure carries the
      identity it got when it was created;
    - [debug(...)] only logs and is left out. *)

From stdpp Require Import base option list gmap strings pretty.
From Stdlib Require Import ZArith Ascii.

(** ** Data model *)

(** The fields of a payload.  Numbers are restricted to integers (the
    timestamp is an integer number of milliseconds); [VBigInt] is a value
    [JSON.stringify] refuses. *)
Inductive value :=
| VNull
| VBool (b : bool)
| VNum (n : Z)
| VStr (s : string)
| VBigInt (n : Z).

(** A plain JS object: property name to value. *)
Abbreviation object := (gmap string value).

(** Objects live in a heap and are passed by reference. *)
Abbreviation loc := nat (only parsing).

(** Values a JS [throw] carries. *)
Inductive exn :=
| TypeError (msg : string)
| SyntaxError (msg : string).

(** The codec builtins.  [inl e] is "throws [e]". *)
Class JSON := {
  JSON_stringify : object → exn + string;
  JSON_parse : string → exn + object;
}.

(** A caller-supplied function, identified by reference.  The Router knows
    nothing about it except that it can be called. *)
Abbreviation callback := nat (only parsing).

(** Function references the Router handles: a caller's function, or the arrow
    function created at one execution of [subscribe], which closes over that
    call's [channel] and [callback]. *)
Inductive fn :=
| Caller (f : callback)
| Subscription (id : nat) (channel : string) (cb : callback).

Global Instance fn_eq_dec : EqDecision fn.
Proof. solve_decision. Defined.

(** What a caller's function was called with. *)
Inductive args :=
| Payload (o : object)
| Message (chnl data : string).

(** One [ioredis] client. *)
Record Redis := mkRedis {
  sent : list (string * string);
  subscribed : gset string;
  listeners : list fn;
  inbox : list (string * string);
}.

(** [new Redis()] *)
Definition new_Redis : Redis :=
  {| sent := []; subscribed := ∅; listeners := []; inbox := [] |}.

(** The process: the heap of caller objects, the wall clock, the fields of
    the single [Topic] instance ([this.disabled], [this.publisher],
    [this.subscriber]; a handle is [None] while the field is undefined), and
    what is observed of the run: every call of a caller's function, the
    number of arrow functions created so far and the number of calls of
    [serialize]. *)
Record World := mkWorld {
  heap : gmap loc object;
  clock : Z;
  disabled : bool;
  publisher : option Redis;
  subscriber : option Redis;
  calls : list (callback * args);
  closures : nat;
  serialized : nat;
}.

Definition set_heap (h : gmap loc object) (w : World) : World :=
  mkWorld h (clock w) (disabled w) (publisher w) (subscriber w)
          (calls w) (closures w) (serialized w).
Definition set_disabled (b : bool) (w : World) : World :=
  mkWorld (heap w) (clock w) b (publisher w) (subscriber w)
          (calls w) (closures w) (serialized w).
Definition set_publisher (p : option Redis) (w : World) : World :=
  mkWorld (heap w) (clock w) (disabled w) p (subscriber w)
          (calls w) (closures w) (serialized w).
Definition set_subscriber (s : option Redis) (w : World) : World :=
  mkWorld (heap w) (clock w) (disabled w) (publisher w) s
          (calls w) (closures w) (serialized w).
Definition set_calls (c : list (callback * args)) (w : World) : World :=
  mkWorld (heap w) (clock w) (disabled w) (publisher w) (subscriber w)
          c (closures w) (serialized w).
Definition set_closures (n : nat) (w : World) : World :=
  mkWorld (heap w) (clock w) (disabled w) (publisher w) (subscriber w)
          (calls w) n (serialized w).
Definition set_serialized (n : nat) (w : World) : World :=
  mkWorld (heap w) (clock w) (disabled w) (publisher w) (subscriber w)
          (calls w) (closures w) n.

(** ** Statements that may throw

    A statement runs on a world and either returns or throws; what it did to
    the world before throwing stays done. *)
Inductive outcome (A : Type) :=
| Return (a : A)
| Throw (e : exn).
Arguments Return {A} a.
Arguments Throw {A} e.

Definition M (A : Type) : Type := World → outcome A * World.

Global Instance M_ret : MRet M := λ A a w, (Return a, w).
Global Instance M_bind : MBind M := λ A B k m w,
  match m w with
  | (Return a, w') => k a w'
  | (Throw e, w') => (Throw e, w')
  end.

Definition throw {A} (e : exn) : M A := λ w, (Throw e, w).
Definition get : M World := λ w, (Return w, w).
Definition modify (f : World → World) : M unit := λ w, (Return (), f w).

(** Run the statements of a loop body over a list, in order. *)
Fixpoint for_each {A} (body : A → M unit) (l : list A) : M unit :=
  match l with
  | [] => mret ()
  | x :: l' => body x;; for_each body l'
  end.

(** ** The transport: what the methods of an [ioredis] client do

    The client is the external collaborator of the Router.  Its methods are
    modelled after the interface the specification lists for a transport
    handle (section 6): [publish] is fire-and-forget, [subscribe] begins the
    delivery of a channel on the one shared stream, [unsubscribe] stops the
    delivery of that channel entirely, [removeListener] detaches one filter.
    The two clients of the process talk to one server, which takes their
    commands in program order: a SUBSCRIBE or UNSUBSCRIBE is in effect when
    the call that issued it returns.  The real clients queue their commands
    on two connections, so a PUBLISH issued in the same turn as a SUBSCRIBE
    may reach the server first.  Whatever is stated about a delivery
    therefore takes the subscription as part of the state the publish
    starts from, not as a call made just before it. *)

(** [client.publish(channel, message)]: one PUBLISH command. *)
Definition Redis_publish (channel message : string) (r : Redis) : Redis :=
  mkRedis (sent r ++ [(channel, message)]) (subscribed r) (listeners r) (inbox r).

(** [client.subscribe(channel)]: the connection receives [channel] from now
    on; subscribing to a channel again changes nothing. *)
Definition Redis_subscribe (channel : string) (r : Redis) : Redis :=
  mkRedis (sent r) ({[channel]} ∪ subscribed r) (listeners r) (inbox r).

(** [client.unsubscribe(channel)]: the connection stops receiving
    [channel] altogether. *)
Definition Redis_unsubscribe (channel : string) (r : Redis) : Redis :=
  mkRedis (sent r) (subscribed r ∖ {[channel]}) (listeners r) (inbox r).

(** [client.on('message', listener)]: appended, also when already there. *)
Definition Redis_on (listener : fn) (r : Redis) : Redis :=
  mkRedis (sent r) (subscribed r) (listeners r ++ [listener]) (inbox r).

(** Drop the first occurrence. *)
Fixpoint remove_first (f : fn) (l : list fn) : list fn :=
  match l with
  | [] => []
  | g :: l' => if decide (g = f) then l' else g :: remove_first f l'
  end.

(** Drop the last occurrence. *)
Definition remove_last (f : fn) (l : list fn) : list fn :=
  reverse (remove_first f (reverse l)).

(** [client.removeListener('message', listener)]: Node searches the listener
    array from its end and removes the one occurrence it finds first, i.e.
    the most recently added one; an unknown listener is ignored. *)
Definition Redis_removeListener (listener : fn) (r : Redis) : Redis :=
  mkRedis (sent r) (subscribed r) (remove_last listener (listeners r)) (inbox r).

(** The server hands a published message to a connection that is subscribed
    to its channel at that moment; the connection emits it later, from its
    event loop. *)
Definition route (channel message : string) (r : Redis) : Redis :=
  if decide (channel ∈ subscribed r)
  then mkRedis (sent r) (subscribed r) (listeners r) (inbox r ++ [(channel, message)])
  else r.

(** [this.publisher.publish(channel, message)].  A method call on an
    undefined handle throws. *)
Definition publisher_publish (channel message : string) : M unit := λ w,
  match publisher w with
  | None => (Throw (TypeError "this.publisher is undefined"), w)
  | Some p =>
      (Return (),
       set_subscriber (route channel message <$> subscriber w)
         (set_publisher (Some (Redis_publish channel message p)) w))
  end.

(** [this.subscriber.method(...)] *)
Definition subscriber_do (method : Redis → Redis) : M unit := λ w,
  match subscriber w with
  | None => (Throw (TypeError "this.subscriber is undefined"), w)
  | Some s => (Return (), set_subscriber (Some (method s)) w)
  end.

(** [Date.now()] *)
Definition Date_now : M Z := λ w, (Return (clock w), w).

(** [data.key = v] on the object [data] refers to; storing through a
    reference to no object throws, as it does on [undefined]. *)
Definition set_property (data : loc) (key : string) (v : value) : M unit := λ w,
  match heap w !! data with
  | None => (Throw (TypeError "Cannot set properties of undefined"), w)
  | Some o => (Return (), set_heap (<[data := <[key := v]> o]> (heap w)) w)
  end.

(** Calling a caller's function: the call is recorded. *)
Definition call (f : callback) (a : args) : M unit :=
  modify (λ w, set_calls (calls w ++ [(f, a)]) w).

(** A fresh function object. *)
Definition new_closure : M nat := λ w,
  (Return (closures w), set_closures (S (closures w)) w).

(** ** The constant catalogs *)

Module events.
Definition CREATE : string := "create".
Definition UPDATE : string := "update".
Definition DELETE : string := "delete".
Definition REPORT : string := "report".
Definition LOGIN : string := "login".
Definition RELOAD : string := "reload".
Definition LOGOUT : string := "logout".
Definition SEARCH : string := "search".
End events.

Module entities.
Definition PATIENT : string := "patient".
Definition INVOICE : string := "invoice".
Definition PAYMENT : string := "payment".
Definition VOUCHER : string := "voucher".
Definition PATIENT_GROUP : string := "patient group".
Definition DEBTOR_GROUP : string := "debtor_group".
Definition EMPLOYEE : string := "employee".
Definition USER : string := "user".
Definition SERVICE : string := "service".
Definition SUPPLIER : string := "supplier".
Definition PERMISSION : string := "permission".
Definition LOCATION : string := "location".
Definition CASHBOX : string := "cashbox".
End entities.

Module channels.
Definition ALL : string := "all".
Definition APP : string := "app".
Definition MEDICAL : string := "medical".
Definition FINANCE : string := "finance".
Definition INVENTORY : string := "inventory".
Definition ADMIN : string := "administration".
End channels.

(** ** The codec helpers *)

(** [serialize(data)]: [JSON.stringify] of the object as it is now; the call
    is counted.  [publish] has stored through [data] before it serializes,
    so the reference is to an object there. *)
Definition serialize `{JSON} (data : loc) : M string := λ w,
  let w' := set_serialized (S (serialized w)) w in
  match heap w !! data with
  | None => (Throw (TypeError "data is undefined"), w')
  | Some o =>
      match JSON_stringify o with
      | inl e => (Throw e, w')
      | inr s => (Return s, w')
      end
  end.

(** [deserialize(data)] *)
Definition deserialize `{JSON} (data : string) : M object :=
  match JSON_parse data with
  | inl e => throw e
  | inr o => mret o
  end.

(** ** The class *)

Module Topic.
Section Methods.
Context `{JSON}.

Definition constructor : M unit :=
  modify (set_disabled false);;
  this ← get;
  if disabled this then mret () else
  modify (set_publisher (Some new_Redis));;
  modify (set_subscriber (Some new_Redis)).

Definition enable : M unit := modify (set_disabled false).

Definition disable : M unit := modify (set_disabled true).

Definition publish (channel : string) (data : loc) : M unit :=
  this ← get;
  if disabled this then mret () else
  timestamp ← Date_now;
  set_property data "timestamp" (VNum timestamp);;
  set_property data "channel" (VStr channel);;
  serial ← serialize data;
  (if decide (channel ≠ channels.ALL)
   then publisher_publish channels.ALL serial
   else mret ());;
  publisher_publish channel serial.

(** The arrow function [(chnl, data) => chnl === channel &&
    callback(deserialize(data))] of [subscribe]. *)
Definition subscription (channel : string) (callback : callback)
    (chnl data : string) : M unit :=
  if decide (chnl = channel)
  then (o ← deserialize data; call callback (Payload o))
  else mret ().

Definition subscribe (channel : string) (callback : callback) : M unit :=
  this ← get;
  if disabled this then mret () else
  subscriber_do (Redis_subscribe channel);;
  id ← new_closure;
  subscriber_do (Redis_on (Subscription id channel callback)).

Definition unsubscribe (channel : string) (subscription : fn) : M unit :=
  this ← get;
  if disabled this then mret () else
  subscriber_do (Redis_unsubscribe channel);;
  subscriber_do (Redis_removeListener subscription).

End Methods.
End Topic.

(** ** The subscriber's event loop *)

Section EventLoop.
Context `{JSON}.

(** Calling a listener with the two arguments of a ['message'] event. *)
Definition apply_listener (f : fn) (chnl data : string) : M unit :=
  match f with
  | Caller g => call g (Message chnl data)
  | Subscription _ channel callback => Topic.subscription channel callback chnl data
  end.

(** [subscriber.emit('message', chnl, data)]: every listener registered at
    that moment, in registration order; a listener that throws ends it. *)
Definition emit (chnl data : string) : M unit :=
  this ← get;
  match subscriber this with
  | None => mret ()
  | Some s => for_each (λ f, apply_listener f chnl data) (listeners s)
  end.

(** One turn: the oldest message waiting at the subscriber is emitted. *)
Definition deliver : M unit :=
  this ← get;
  match subscriber this with
  | Some (mkRedis snt subs ls ((chnl, data) :: rest)) =>
      modify (set_subscriber (Some (mkRedis snt subs ls rest)));;
      emit chnl data
  | _ => mret ()
  end.

(** [n] turns, unless a listener throws. *)
Fixpoint turns (n : nat) : M unit :=
  match n with
  | O => mret ()
  | S k => deliver;; turns k
  end.

(** The messages handed to the subscriber and not emitted yet. *)
Definition waiting (w : World) : list (string * string) :=
  match subscriber w with
  | Some s => inbox s
  | None => []
  end.

(** The event loop runs until nothing published so far is waiting. *)
Definition drain : M unit := λ w, turns (length (waiting w)) w.

End EventLoop.

(** ** Tearing down *)

(** [client.removeAllListeners()] *)
Definition Redis_removeAllListeners (r : Redis) : Redis :=
  mkRedis (sent r) (subscribed r) [] (inbox r).

(** [this.publisher.method(...)] *)
Definition publisher_do (method : Redis → Redis) : M unit := λ w,
  match publisher w with
  | None => (Throw (TypeError "this.publisher is undefined"), w)
  | Some p => (Return (), set_publisher (Some (method p)) w)
  end.

(** Which of the two connections have been told to close. *)
Record Sockets := mkSockets {
  publisher_closed : bool;
  subscriber_closed : bool;
}.

(** [client.disconnect()] on the publisher, then on the subscriber. *)
Definition close_both (k : Sockets) : Sockets :=
  mkSockets true true.

(** [disconnect()]: the flag, the listeners of both clients, and then both
    connections.  The two [disconnect] calls come last and are reached only
    when nothing before them threw. *)
Definition disconnect (w : World) (k : Sockets) : outcome unit * World * Sockets :=
  match (Topic.disable;;
         subscriber_do Redis_removeAllListeners;;
         publisher_do Redis_removeAllListeners) w with
  | (Return (), w') => (Return (), w', close_both k)
  | (Throw e, w') => (Throw e, w', k)
  end.

(** ** MiniJSON: an implementation of the codec, to run the methods

    It prints an object as [{"k":v,...}] without white space, in the key order
    of the map, escapes the double quote and the backslash of a string with a
    backslash, and refuses a BigInt as [JSON.stringify] does; it parses what
    it prints. *)

Module MiniJSON.

Definition dquote : ascii := "034"%char.
Definition backslash : ascii := "092"%char.

Fixpoint escape (s : string) : string :=
  match s with
  | EmptyString => EmptyString
  | String c s' =>
      if decide (c = dquote ∨ c = backslash)
      then String backslash (String c (escape s'))
      else String c (escape s')
  end.

Definition quote (s : string) : string :=
  String dquote (escape s +:+ String dquote EmptyString).

Definition print_value (v : value) : exn + string :=
  match v with
  | VNull => inr "null"
  | VBool true => inr "true"
  | VBool false => inr "false"
  | VNum n => inr (pretty n)
  | VStr s => inr (quote s)
  | VBigInt _ => inl (TypeError "Do not know how to serialize a BigInt")
  end.

Fixpoint print_members (l : list (string * value)) : exn + string :=
  match l with
  | [] => inr EmptyString
  | (k, v) :: l' =>
      match print_value v, print_members l' with
      | inl e, _ => inl e
      | _, inl e => inl e
      | inr pv, inr rest =>
          inr (quote k +:+ ":" +:+ pv +:+
               match l' with [] => rest | _ => "," +:+ rest end)
      end
  end.

Definition stringify (o : object) : exn + string :=
  match print_members (map_to_list o) with
  | inl e => inl e
  | inr members => inr ("{" +:+ members +:+ "}")
  end.

(** After an opening quote: the characters up to the closing quote, and
    what follows it. *)
Fixpoint parse_chars (s : string) : option (string * string) :=
  match s with
  | EmptyString => None
  | String c s' =>
      if decide (c = dquote) then Some (EmptyString, s')
      else if decide (c = backslash) then
        match s' with
        | EmptyString => None
        | String d s'' =>
            match parse_chars s'' with
            | Some (t, rest) => Some (String d t, rest)
            | None => None
            end
        end
      else
        match parse_chars s' with
        | Some (t, rest) => Some (String c t, rest)
        | None => None
        end
  end.

Definition digit (c : ascii) : option Z :=
  let n := Z.of_nat (nat_of_ascii c) in
  if decide (48 ≤ n ≤ 57)%Z then Some (n - 48)%Z else None.

Fixpoint parse_digits (acc : Z) (s : string) : Z * string :=
  match s with
  | EmptyString => (acc, s)
  | String c s' =>
      match digit c with
      | Some d => parse_digits (10 * acc + d)%Z s'
      | None => (acc, s)
      end
  end.

Definition parse_natural (s : string) : option (Z * string) :=
  match s with
  | String c _ =>
      match digit c with
      | Some _ => Some (parse_digits 0 s)
      | None => None
      end
  | EmptyString => None
  end.

Definition literal (word : string) (v : value) (s : string)
    : option (value * string) :=
  if decide (String.prefix word s = true)
  then Some (v, String.substring (String.length word)
                  (String.length s - String.length word) s)
  else None.

Definition parse_value (s : string) : option (value * string) :=
  match s with
  | String c s' =>
      if decide (c = dquote) then
        '(t, rest) ← parse_chars s'; Some (VStr t, rest)
      else if decide (c = "-"%char) then
        '(n, rest) ← parse_natural s'; Some (VNum (- n), rest)
      else if decide (c = "n"%char) then literal "null" VNull s
      else if decide (c = "t"%char) then literal "true" (VBool true) s
      else if decide (c = "f"%char) then literal "false" (VBool false) s
      else '(n, rest) ← parse_natural s; Some (VNum n, rest)
  | EmptyString => None
  end.

(** After [{] or [,]: one ["key":value], then [,] and more, or [}]. *)
Fixpoint parse_members (fuel : nat) (acc : object) (s : string)
    : option (object * string) :=
  match fuel, s with
  | S fuel', String c s1 =>
      if decide (c = dquote) then
        '(k, s2) ← parse_chars s1;
        match s2 with
        | String ":" s3 =>
            '(v, s4) ← parse_value s3;
            match s4 with
            | String "," s5 => parse_members fuel' (<[k := v]> acc) s5
            | String "}" s5 => Some (<[k := v]> acc, s5)
            | _ => None
            end
        | _ => None
        end
      else None
  | _, _ => None
  end.

Definition parse (s : string) : exn + object :=
  match s with
  | String "{" (String "}" EmptyString) => inr ∅
  | String "{" s' =>
      match parse_members (String.length s) ∅ s' with
      | Some (o, EmptyString) => inr o
      | _ => inl (SyntaxError "Unexpected token in JSON")
      end
  | _ => inl (SyntaxError "Unexpected token in JSON")
  end.

Definition codec : JSON :=
  {| JSON_stringify := stringify; JSON_parse := parse |}.

End MiniJSON.

(** * Vocabulary of the properties *)

(** ** What a publish puts on the wire *)

(** The envelope of a payload: the two stamped fields over the caller's. *)
Definition stamp (channel : string) (timestamp : Z) (o : object) : object :=
  <["channel" := VStr channel]> (<["timestamp" := VNum timestamp]> o).

(** The sends of one publish, in program order. *)
Definition sends (channel serial : string) : list (string * string) :=
  if decide (channel ≠ channels.ALL)
  then [(channels.ALL, serial); (channel, serial)]
  else [(channel, serial)].

(** The server routing a list of sends, one after the other. *)
Definition route_all (msgs : list (string * string)) (r : Redis) : Redis :=
  foldl (λ r m, route m.1 m.2 r) r msgs.

(** The world a publish that got past its guard leaves behind, before any
    send: the payload is stamped in place and [serialize] was called once. *)
Definition published (channel : string) (data : loc) (o : object) (w : World) : World :=
  set_serialized (S (serialized w))
    (set_heap (<[data := stamp channel (clock w) o]> (heap w)) w).

(** The messages a connection is handed out of a list of sends. *)
Definition routed (msgs : list (string * string)) (r : Redis) : list (string * string) :=
  filter (λ m, m.1 ∈ subscribed r) msgs.

(** ** What an emitted message leads to *)

Section Reactions.
Context `{JSON}.

(** [JSON.parse] returns on this message. *)
Definition parses (data : string) : Prop := ∃ o, JSON_parse data = inr o.

(** The calls one listener makes on a message. *)
Definition fire (chnl data : string) (f : fn) : list (callback * args) :=
  match f with
  | Caller g => [(g, Message chnl data)]
  | Subscription _ channel cb =>
      if decide (chnl = channel)
      then match JSON_parse data with
           | inr o => [(cb, Payload o)]
           | inl _ => []
           end
      else []
  end.

(** The calls an emitted message leads to. *)
Definition fired (ls : list fn) (m : string * string) : list (callback * args) :=
  flat_map (fire m.1 m.2) ls.

End Reactions.

(** ** Who was called, and who is registered where *)

(** The calls of one caller function so far, oldest first. *)
Definition invocations (cb : callback) (w : World) : list (callback * args) :=
  filter (λ c, c.1 = cb) (calls w).

(** [cb] is on the stream only inside filters bound to channel [X]. *)
Definition registered_only_on (X : string) (cb : callback) (ls : list fn) : Prop :=
  Forall (λ f, match f with
               | Caller g => g ≠ cb
               | Subscription _ channel cb' => cb' = cb → channel = X
               end) ls.

(** [cb] is the callback of no listener on the stream. *)
Definition absent (cb : callback) (ls : list fn) : Prop :=
  Forall (λ f, match f with
               | Caller g => g ≠ cb
               | Subscription _ _ cb' => cb' ≠ cb
               end) ls.

(** ** What the callers of the Router can do, and what stays true *)

(** The filter was created before the [n]-th closure. *)
Definition older (n : nat) (f : fn) : Prop :=
  match f with
  | Subscription id _ _ => id < n
  | Caller _ => True
  end.

(** Every filter on the stream is an arrow function that was created by some
    earlier [subscribe], and no function is on the stream twice. *)
Definition well_formed (w : World) : Prop :=
  ∀ s, subscriber w = Some s →
    Forall (older (closures w)) (listeners s) ∧ NoDup (listeners s).

(** One step of the process: loading the module, a call of a method, or one
    turn of the subscriber's event loop. *)
Inductive action :=
| Construct
| Enable
| Disable
| Publish (channel : string) (data : loc)
| Subscribe (channel : string) (cb : callback)
| Unsubscribe (channel : string) (f : fn)
| Turn.

Definition perform `{JSON} (a : action) : M unit :=
  match a with
  | Construct => Topic.constructor
  | Enable => Topic.enable
  | Disable => Topic.disable
  | Publish channel data => Topic.publish channel data
  | Subscribe channel cb => Topic.subscribe channel cb
  | Unsubscribe channel f => Topic.unsubscribe channel f
  | Turn => deliver
  end.

(** The world after a script of steps.  A step that throws ends that call
    only; the script goes on with the world the call left behind. *)
Fixpoint run `{JSON} (script : list action) (w : World) : World :=
  match script with
  | [] => w
  | a :: script' => run script' (perform a w).2
  end.

(** A call of one of the three guarded methods. *)
Definition is_call (a : action) : Prop :=
  match a with
  | Publish _ _ | Subscribe _ _ | Unsubscribe _ _ => True
  | _ => False
  end.

(** The listener is an arrow function of [subscribe]. *)
Definition is_filter (f : fn) : Prop :=
  match f with
  | Subscription _ _ _ => True
  | Caller _ => False
  end.

(** The listener is not a filter bound to channel [X]. *)
Definition not_bound_to (X : string) (f : fn) : Prop :=
  match f with
  | Subscription _ channel _ => channel ≠ X
  | Caller _ => True
  end.

(** The publisher has only ever sent, the subscriber has never sent, and
    only arrow functions of [subscribe] are on the stream. *)
Definition separated (w : World) : Prop :=
  (∀ p, publisher w = Some p →
     subscribed p = ∅ ∧ listeners p = [] ∧ inbox p = [])
  ∧ (∀ s, subscriber w = Some s →
       sent s = [] ∧ Forall is_filter (listeners s)).

(** ** A concrete process, to run the methods on *)

Module Sample.

(** Three caller objects: [{text: "hello world"}], [{id: 1, channel:
    "stale", timestamp: 0}] and [{big: 10n}]. *)
Definition hello : object := <["text" := VStr "hello world"]> ∅.
Definition stale : object :=
  <["id" := VNum 1]> (<["channel" := VStr "stale"]> (<["timestamp" := VNum 0]> ∅)).
Definition big : object := <["big" := VBigInt 10]> ∅.

Definition objects : gmap loc object := <[0 := hello]> (<[1 := stale]> (<[2 := big]> ∅)).

Definition now : Z := 1500000000000.

(** The process before the module is loaded, and after [new Topic()]. *)
Definition blank : World := mkWorld objects now false None None [] 0 0.
Definition started : World := (Topic.constructor blank).2.

(** The world a sequence of statements leaves behind. *)
Definition after (m : M unit) (w : World) : World := (m w).2.

(** What MiniJSON makes of an object stamped for a channel at [now]. *)
Definition wire (channel : string) (o : object) : string :=
  match MiniJSON.stringify (stamp channel now o) with
  | inr serial => serial
  | inl _ => EmptyString
  end.

(** The started process at a later time, when the subscribes that put [ls]
    on the stream were made long enough ago for the inbound handle to be
    subscribed to [subs], and nothing is waiting. *)
Definition listening (ls : list fn) (subs : gset string) : World :=
  mkWorld objects now false (Some new_Redis) (Some (mkRedis [] subs ls []))
          [] (length ls) 0.

End Sample.

(** * Properties *)

Ltac unfold_M :=
  unfold mbind, M_bind, mret, M_ret, get, modify, throw, Date_now,
    set_property, new_closure, call, subscriber_do, publisher_publish in *.

Lemma unsubscribed_after (X : string) (S : gset string) : X ∉ S ∖ {[X]}.
Proof. rewrite elem_of_difference, elem_of_singleton. by intros [_ Hne]. Qed.

Lemma unsubscribe_not_subscribed (X : string) (S : gset string) :
  X ∉ S → S ∖ {[X]} = S.
Proof. intros HX. apply difference_disjoint_L. by apply disjoint_singleton_r. Qed.

Lemma subscribed_after (X : string) (S : gset string) : X ∈ {[X]} ∪ S.
Proof. apply elem_of_union_l. by apply elem_of_singleton. Qed.

Section Facts.
Context `{JSON}.

Lemma stamp_timestamp channel t o :
  stamp channel t o !! "timestamp" = Some (VNum t).
Proof. unfold stamp. rewrite lookup_insert_ne by done. apply lookup_insert_eq. Qed.

Lemma stamp_channel channel t o :
  stamp channel t o !! "channel" = Some (VStr channel).
Proof. unfold stamp. apply lookup_insert_eq. Qed.

Lemma stamp_other channel t o k :
  k ≠ "timestamp" → k ≠ "channel" → stamp channel t o !! k = o !! k.
Proof. intros. unfold stamp. by rewrite !lookup_insert_ne. Qed.

Lemma stamp_idemp channel t o :
  stamp channel t (stamp channel t o) = stamp channel t o.
Proof.
  apply map_eq; intros k. unfold stamp.
  destruct (decide (k = "channel")) as [->|];
    [by rewrite !lookup_insert_eq|].
  destruct (decide (k = "timestamp")) as [->|].
  - rewrite !(lookup_insert_ne _ "channel") by done.
    by rewrite !lookup_insert_eq.
  - by rewrite !lookup_insert_ne.
Qed.

Lemma Forall_filter_keep {A} (P Q : A → Prop) `{∀ x, Decision (Q x)} (l : list A) :
  Forall P l → Forall P (filter Q l).
Proof.
  rewrite !Forall_forall. intros HP x [_ Hx]%list_elem_of_filter. by apply HP.
Qed.

Lemma route_inbox c m r :
  inbox (route c m r) = inbox r ++ routed [(c, m)] r.
Proof.
  unfold route, routed. rewrite filter_cons, filter_nil. simpl.
  destruct (decide (c ∈ subscribed r)); simpl; [done|by rewrite app_nil_r].
Qed.

Lemma route_frame c m r :
  sent (route c m r) = sent r ∧ subscribed (route c m r) = subscribed r
  ∧ listeners (route c m r) = listeners r.
Proof. unfold route. by destruct (decide (c ∈ subscribed r)). Qed.

Lemma route_all_frame msgs r :
  sent (route_all msgs r) = sent r
  ∧ subscribed (route_all msgs r) = subscribed r
  ∧ listeners (route_all msgs r) = listeners r
  ∧ inbox (route_all msgs r) = inbox r ++ routed msgs r.
Proof.
  revert r. induction msgs as [|[c m] msgs IH]; intros r.
  - unfold routed. rewrite filter_nil, app_nil_r. done.
  - unfold route_all in *. simpl.
    destruct (IH (route c m r)) as (-> & -> & -> & ->).
    destruct (route_frame c m r) as (-> & Hs & ->).
    repeat split; try done.
    rewrite route_inbox, <- app_assoc. f_equal.
    unfold routed. rewrite Hs, !filter_cons, filter_nil. simpl.
    by destruct (decide (c ∈ subscribed r)).
Qed.

(** Past the guard, a publish stamps, serializes, and then sends. *)
Lemma publish_enabled channel data o w :
  disabled w = false →
  heap w !! data = Some o →
  Topic.publish channel data w =
    match JSON_stringify (stamp channel (clock w) o) with
    | inl e => (Throw e, published channel data o w)
    | inr serial =>
        for_each (λ m, publisher_publish m.1 m.2) (sends channel serial)
                 (published channel data o w)
    end.
Proof.
  intros Hen Hd. unfold Topic.publish, serialize, published, sends.
  unfold_M. rewrite Hen, Hd. simpl.
  rewrite lookup_insert_eq. simpl. rewrite lookup_insert_eq, insert_insert_eq.
  fold (stamp channel (clock w) o).
  destruct (JSON_stringify (stamp channel (clock w) o)) as [e|serial]; [done|].
  destruct (decide (channel ≠ channels.ALL)); simpl; unfold_M; simpl.
  - by destruct (publisher w); simpl; [destruct (subscriber w)|].
  - by destruct (publisher w).
Qed.

Lemma sends_publisher msgs p w :
  publisher w = Some p →
  for_each (λ m, publisher_publish m.1 m.2) msgs w =
    (Return (),
     set_subscriber (route_all msgs <$> subscriber w)
       (set_publisher
          (Some (mkRedis (sent p ++ msgs) (subscribed p) (listeners p) (inbox p)))
          w)).
Proof.
  revert p w. induction msgs as [|[c m] msgs IH]; intros p w Hp.
  - simpl. unfold_M. rewrite app_nil_r. destruct w as [? ? ? ? [?|] ? ? ?];
      simpl in *; subst; by destruct p.
  - simpl. unfold_M. rewrite Hp. simpl.
    erewrite IH by reflexivity. simpl. rewrite <- app_assoc. simpl.
    by destruct (subscriber w).
Qed.

(** The whole of a successful publish. *)
Lemma publish_ok channel data o p serial w :
  disabled w = false →
  publisher w = Some p →
  heap w !! data = Some o →
  JSON_stringify (stamp channel (clock w) o) = inr serial →
  Topic.publish channel data w =
    (Return (),
     set_subscriber (route_all (sends channel serial) <$> subscriber w)
       (set_publisher
          (Some (mkRedis (sent p ++ sends channel serial)
                         (subscribed p) (listeners p) (inbox p)))
          (published channel data o w))).
Proof.
  intros Hen Hp Hd Hs. rewrite (publish_enabled _ _ o) by done. rewrite Hs.
  by rewrite (sends_publisher _ p).
Qed.

(** ** Registering and removing filters *)

Lemma subscribe_ok channel cb s w :
  disabled w = false →
  subscriber w = Some s →
  Topic.subscribe channel cb w =
    (Return (),
     set_subscriber
       (Some (mkRedis (sent s) ({[channel]} ∪ subscribed s)
                      (listeners s ++ [Subscription (closures w) channel cb])
                      (inbox s)))
       (set_closures (S (closures w)) w)).
Proof.
  intros Hen Hs. unfold Topic.subscribe, Redis_subscribe, Redis_on.
  unfold_M. rewrite Hen, Hs. simpl. done.
Qed.

Lemma unsubscribe_ok channel f s w :
  disabled w = false →
  subscriber w = Some s →
  Topic.unsubscribe channel f w =
    (Return (),
     set_subscriber
       (Some (mkRedis (sent s) (subscribed s ∖ {[channel]})
                      (remove_last f (listeners s)) (inbox s)))
       w).
Proof.
  intros Hen Hs. unfold Topic.unsubscribe, Redis_unsubscribe, Redis_removeListener.
  unfold_M. rewrite Hen, Hs. simpl. done.
Qed.

Lemma remove_first_notin f (l : list fn) : f ∉ l → remove_first f l = l.
Proof.
  induction l as [|g l IH]; [done|]. intros Hn. simpl.
  apply not_elem_of_cons in Hn as [Hne Hn].
  destruct (decide (g = f)); [congruence|]. by rewrite IH.
Qed.

Lemma filter_other_notin (f : fn) (l : list fn) : f ∉ l → filter (λ g, g ≠ f) l = l.
Proof.
  induction l as [|g l IH]; [done|]. intros [Hne Hn]%not_elem_of_cons.
  rewrite filter_cons, decide_True by congruence. by rewrite IH.
Qed.

Lemma remove_first_filter f (l : list fn) :
  NoDup l → remove_first f l = filter (λ g, g ≠ f) l.
Proof.
  induction l as [|g l IH]; [done|]. intros [Hg Hl]%NoDup_cons. simpl.
  rewrite filter_cons. destruct (decide (g = f)) as [->|Hne].
  - rewrite decide_False by (intros Hc; by apply Hc).
    by rewrite filter_other_notin.
  - rewrite decide_True by done. by rewrite IH.
Qed.

Lemma remove_last_notin f (l : list fn) : f ∉ l → remove_last f l = l.
Proof.
  intros Hn. unfold remove_last.
  rewrite remove_first_notin by (by rewrite elem_of_reverse).
  apply reverse_involutive.
Qed.

(** Among distinct listeners, removing one keeps every other, in order. *)
Lemma remove_last_filter f (l : list fn) :
  NoDup l → remove_last f l = filter (λ g, g ≠ f) l.
Proof.
  intros Hl. unfold remove_last.
  rewrite remove_first_filter by (by rewrite reverse_Permutation).
  by rewrite filter_reverse, reverse_involutive.
Qed.

(** ** The event loop *)

Lemma set_calls_id w : set_calls (calls w ++ []) w = w.
Proof. rewrite app_nil_r. by destruct w. Qed.

Lemma apply_listener_parsed f chnl data w :
  parses data →
  apply_listener f chnl data w =
    (Return (), set_calls (calls w ++ fire chnl data f) w).
Proof.
  intros [o Hp].
  destruct f as [g|id channel cb]; simpl; [done|].
  unfold Topic.subscription, deserialize.
  destruct (decide (chnl = channel)); unfold_M; simpl.
  - by rewrite Hp.
  - by rewrite set_calls_id.
Qed.

Lemma listeners_parsed ls chnl data w :
  parses data →
  for_each (λ f, apply_listener f chnl data) ls w =
    (Return (), set_calls (calls w ++ fired ls (chnl, data)) w).
Proof.
  intros Hp. revert w. induction ls as [|f ls IH]; intros w.
  - simpl. by rewrite set_calls_id.
  - simpl. unfold mbind, M_bind. rewrite apply_listener_parsed by done.
    rewrite IH. unfold fired. simpl. by rewrite <- app_assoc.
Qed.

Lemma emit_parsed chnl data s w :
  subscriber w = Some s →
  parses data →
  emit chnl data w =
    (Return (), set_calls (calls w ++ fired (listeners s) (chnl, data)) w).
Proof.
  intros Hs Hp. unfold emit. unfold mbind, M_bind, get. rewrite Hs.
  by apply listeners_parsed.
Qed.

Lemma turns_parsed msgs : ∀ snt subs ls w,
  subscriber w = Some (mkRedis snt subs ls msgs) →
  Forall (λ m, parses m.2) msgs →
  turns (length msgs) w =
    (Return (),
     set_calls (calls w ++ flat_map (fired ls) msgs)
       (set_subscriber (Some (mkRedis snt subs ls [])) w)).
Proof.
  induction msgs as [|[c m] msgs IH]; intros snt subs ls w Hs Hp.
  - simpl. unfold mret, M_ret. rewrite app_nil_r.
    destruct w; simpl in *; by subst.
  - apply Forall_cons in Hp as [Hm Hp]. simpl in Hm.
    simpl. unfold deliver. unfold mbind, M_bind, get, modify. rewrite Hs.
    rewrite (emit_parsed _ _ (mkRedis snt subs ls msgs)) by done.
    erewrite IH by (done || reflexivity). simpl.
    by rewrite <- app_assoc.
Qed.

(** When every waiting message parses, the event loop empties the queue
    and every listener reacts to every message, in order. *)
Lemma drain_parsed s w :
  subscriber w = Some s →
  Forall (λ m, parses m.2) (inbox s) →
  drain w =
    (Return (),
     set_calls (calls w ++ flat_map (fired (listeners s)) (inbox s))
       (set_subscriber
          (Some (mkRedis (sent s) (subscribed s) (listeners s) [])) w)).
Proof.
  intros Hs Hp. unfold drain, waiting. rewrite Hs.
  destruct s as [snt subs ls msgs]. by apply turns_parsed.
Qed.

Lemma invocations_call cb g a w :
  invocations cb (set_calls (calls w ++ [(g, a)]) w) =
    invocations cb w ++ (if decide (g = cb) then [(g, a)] else []).
Proof.
  unfold invocations. simpl. rewrite filter_app, filter_cons, filter_nil. simpl.
  by destruct (decide (g = cb)).
Qed.

(** A message on another channel never reaches a callback that is registered
    only on [X], whatever else is on the stream and whether or not some
    listener throws. *)
Lemma listeners_isolated X Y cb data ls : ∀ w r w',
  Y ≠ X →
  registered_only_on X cb ls →
  for_each (λ f, apply_listener f Y data) ls w = (r, w') →
  invocations cb w' = invocations cb w.
Proof.
  induction ls as [|f ls IH]; intros w r w' Hne Hreg Hrun.
  - simpl in Hrun. by injection Hrun as <- <-.
  - apply Forall_cons in Hreg as [Hf Hreg]. simpl in Hrun.
    unfold mbind, M_bind in Hrun.
    destruct (apply_listener f Y data w) as [[[]|e] w1] eqn:Hstep.
    + apply IH in Hrun; [|done..]. rewrite Hrun. clear Hrun.
      destruct f as [g|id c cb']; simpl in Hstep.
      * unfold call, modify in Hstep. injection Hstep as <-.
        rewrite invocations_call, decide_False by done. by rewrite app_nil_r.
      * unfold Topic.subscription, deserialize in Hstep.
        destruct (decide (Y = c)) as [->|]; unfold_M;
          [|by injection Hstep as <-].
        destruct (JSON_parse data); simpl in Hstep; [done|].
        injection Hstep as <-.
        rewrite invocations_call, decide_False; [by rewrite app_nil_r|].
        intros ->. by apply Hne, Hf.
    + injection Hrun as <- <-.
      destruct f as [g|id c cb']; simpl in Hstep; [done|].
      unfold Topic.subscription, deserialize in Hstep.
      destruct (decide (Y = c)); unfold_M; [|done].
      destruct (JSON_parse data); simpl in Hstep; [|done].
      by injection Hstep as _ <-.
Qed.

(** ** What a publish does to the inbound handle, in every case *)

Lemma publish_frame channel data w :
  ∃ r w' msgs,
    Topic.publish channel data w = (r, w')
    ∧ subscriber w' = route_all msgs <$> subscriber w
    ∧ Forall (λ m, m.1 = channels.ALL ∨ m.1 = channel) msgs
    ∧ closures w' = closures w
    ∧ disabled w' = disabled w
    ∧ calls w' = calls w.
Proof.
  destruct (disabled w) eqn:Hen.
  { exists (Return ()), w, []. unfold Topic.publish. unfold_M. rewrite Hen.
    split; [done|]. split; [by destruct (subscriber w)|]. done. }
  destruct (heap w !! data) as [o|] eqn:Hd.
  2:{ eexists _, w, []. unfold Topic.publish. unfold_M. rewrite Hen, Hd. simpl.
      split; [done|]. split; [by destruct (subscriber w)|]. done. }
  rewrite (publish_enabled _ _ o) by done.
  destruct (JSON_stringify (stamp channel (clock w) o)) as [e|serial].
  { eexists _, _, []. split; [done|]. simpl.
    split; [by destruct (subscriber w)|]. done. }
  assert (Htags : Forall (λ m : string * string, m.1 = channels.ALL ∨ m.1 = channel)
                    (sends channel serial)).
  { unfold sends. destruct (decide (channel ≠ channels.ALL));
      repeat (apply Forall_cons; split; [simpl; auto|]); constructor. }
  destruct (publisher w) as [p|] eqn:Hp.
  - rewrite (sends_publisher _ p) by done.
    eexists _, _, (sends channel serial). split; [done|]. simpl. done.
  - eexists _, (published channel data o w), [].
    split; [|simpl; split; [by destruct (subscriber w)|done]].
    unfold sends. destruct (decide (channel ≠ channels.ALL));
      simpl; unfold_M; simpl; by rewrite Hp.
Qed.

(** ** The event loop only calls *)

Lemma apply_listener_frame f chnl data w r w' :
  apply_listener f chnl data w = (r, w') → w' = set_calls (calls w') w.
Proof.
  destruct f as [g|id c cb]; simpl.
  - unfold call, modify. by intros [= <- <-].
  - unfold Topic.subscription, deserialize.
    destruct (decide (chnl = c)); unfold_M.
    + destruct (JSON_parse data); simpl; intros [= <- <-]; by destruct w.
    + intros [= <- <-]. by destruct w.
Qed.

Lemma listeners_frame chnl data ls : ∀ w r w',
  for_each (λ f, apply_listener f chnl data) ls w = (r, w') →
  w' = set_calls (calls w') w.
Proof.
  induction ls as [|f ls IH]; intros w r w' Hrun; simpl in Hrun.
  - injection Hrun as <- <-. by destruct w.
  - unfold mbind, M_bind in Hrun.
    destruct (apply_listener f chnl data w) as [[[]|e] w1] eqn:Hstep.
    + apply IH in Hrun. apply apply_listener_frame in Hstep.
      rewrite Hrun, Hstep. done.
    + injection Hrun as <- <-. by apply apply_listener_frame in Hstep.
Qed.

Lemma deliver_frame w :
  ∃ r w', deliver w = (r, w')
    ∧ closures w' = closures w
    ∧ disabled w' = disabled w
    ∧ publisher w' = publisher w
    ∧ heap w' = heap w
    ∧ subscriber w' =
        (λ s, mkRedis (sent s) (subscribed s) (listeners s) (tail (inbox s)))
          <$> subscriber w.
Proof.
  unfold deliver. unfold mbind, M_bind, get, modify.
  destruct (subscriber w) as [[snt subs ls [|[c m] rest]]|] eqn:Hs.
  - eexists _, _. split; [reflexivity|]. by rewrite Hs.
  - unfold emit. unfold mbind, M_bind, get. simpl.
    destruct (for_each _ ls _) as [r w'] eqn:Hrun.
    apply listeners_frame in Hrun. eexists _, _. split; [reflexivity|].
    rewrite Hrun. done.
  - eexists _, _. split; [reflexivity|]. by rewrite Hs.
Qed.

(** ** The handles stay open *)

Lemma publish_keeps_publisher channel data w :
  is_Some (publisher w) → is_Some (publisher (Topic.publish channel data w).2).
Proof.
  intros [p Hp]. destruct (disabled w) eqn:Hen.
  { unfold Topic.publish. unfold_M. rewrite Hen. simpl. by exists p. }
  destruct (heap w !! data) as [o|] eqn:Hd.
  2:{ unfold Topic.publish. unfold_M. rewrite Hen, Hd. simpl. by exists p. }
  rewrite (publish_enabled _ _ o) by done.
  destruct (JSON_stringify (stamp channel (clock w) o)) as [e|serial].
  - simpl. by exists p.
  - rewrite (sends_publisher _ p) by done. simpl. by eexists.
Qed.

(** Once the constructor has run, both handles are there for good. *)
Lemma handles_open_perform a w :
  is_Some (publisher w) ∧ is_Some (subscriber w) →
  is_Some (publisher (perform a w).2) ∧ is_Some (subscriber (perform a w).2).
Proof.
  intros [Hp [s Hs]].
  destruct a as [| | |channel data|channel cb|channel f|]; simpl.
  - split; by eexists.
  - split; [done|by exists s].
  - split; [done|by exists s].
  - split; [by apply publish_keeps_publisher|].
    destruct (publish_frame channel data w) as (r & w' & msgs & -> & Hs' & _).
    simpl. rewrite Hs', Hs. simpl. by eexists.
  - destruct (disabled w) eqn:Hen.
    + unfold Topic.subscribe. unfold_M. rewrite Hen. simpl.
      split; [done|by exists s].
    + rewrite (subscribe_ok _ _ s) by done. simpl. split; [done|by eexists].
  - destruct (disabled w) eqn:Hen.
    + unfold Topic.unsubscribe. unfold_M. rewrite Hen. simpl.
      split; [done|by exists s].
    + rewrite (unsubscribe_ok _ _ s) by done. simpl. split; [done|by eexists].
  - destruct (deliver_frame w) as (r & w' & -> & _ & _ & Hp' & _ & Hs'). simpl.
    rewrite Hp', Hs', Hs. simpl. split; [done|by eexists].
Qed.

Lemma handles_open_run script : ∀ w,
  is_Some (publisher w) ∧ is_Some (subscriber w) →
  is_Some (publisher (run script w)) ∧ is_Some (subscriber (run script w)).
Proof.
  induction script as [|a script IH]; intros w Hopen; [done|].
  simpl. by apply IH, handles_open_perform.
Qed.

Lemma handles_open_started script w :
  is_Some (publisher (run (Construct :: script) w))
  ∧ is_Some (subscriber (run (Construct :: script) w)).
Proof.
  change (run (Construct :: script) w)
    with (run script (Topic.constructor w).2).
  apply handles_open_run. simpl. split; by eexists.
Qed.

(** ** Only [disable] disables *)

Lemma enabled_perform a w :
  a ≠ Disable → disabled w = false → disabled (perform a w).2 = false.
Proof.
  intros Ha Hen.
  destruct a as [| | |channel data|channel cb|channel f|]; simpl; try done.
  - destruct (publish_frame channel data w) as (r & w' & msgs & -> & _ & _ & _ & Hd & _).
    simpl. congruence.
  - unfold Topic.subscribe, Redis_subscribe, Redis_on. unfold_M. rewrite Hen.
    by destruct (subscriber w).
  - unfold Topic.unsubscribe. unfold_M. rewrite Hen.
    by destruct (subscriber w).
  - destruct (deliver_frame w) as (r & w' & -> & _ & Hd & _). simpl. congruence.
Qed.

Lemma enabled_run script : ∀ w,
  Disable ∉ script → disabled w = false → disabled (run script w) = false.
Proof.
  induction script as [|a script IH]; intros w Hno Hen; [done|].
  apply not_elem_of_cons in Hno as [Ha Hno].
  simpl. apply IH; [done|]. by apply enabled_perform.
Qed.

(** ** The invariant *)

Lemma older_mono n m f : n ≤ m → older n f → older m f.
Proof. destruct f; simpl; [done|lia]. Qed.

Lemma older_fresh n channel cb ls :
  Forall (older n) ls → Subscription n channel cb ∉ ls.
Proof.
  intros Hall Hin. rewrite Forall_forall in Hall. apply Hall in Hin.
  simpl in Hin. lia.
Qed.

Lemma well_formed_perform a w : well_formed w → well_formed (perform a w).2.
Proof.
  intros Hwf. destruct a as [| | |channel data|channel cb|channel f|]; simpl.
  - intros s [= <-]. simpl. split; constructor.
  - done.
  - done.
  - destruct (publish_frame channel data w)
      as (r & w' & msgs & -> & Hsub & _ & Hcl & _). simpl.
    intros s' Hs'. rewrite Hsub in Hs'.
    destruct (subscriber w) as [s|] eqn:Hs; [|done].
    injection Hs' as <-.
    destruct (route_all_frame msgs s) as (_ & _ & -> & _).
    rewrite Hcl. by apply Hwf.
  - destruct (disabled w) eqn:Hen.
    { unfold Topic.subscribe. unfold_M. by rewrite Hen. }
    destruct (subscriber w) as [s|] eqn:Hs.
    + rewrite (subscribe_ok _ _ s) by done. simpl.
      intros s' [= <-]. simpl. destruct (Hwf s Hs) as [Hold Hnd]. split.
      * apply Forall_app. split; [|repeat constructor; simpl; lia].
        eapply Forall_impl; [done|]. intros g. apply older_mono. lia.
      * apply NoDup_app. split; [done|]. split; [|apply NoDup_singleton].
        intros g Hg ->%list_elem_of_singleton. by eapply older_fresh.
    + unfold Topic.subscribe. unfold_M. by rewrite Hen, Hs.
  - destruct (disabled w) eqn:Hen.
    { unfold Topic.unsubscribe. unfold_M. by rewrite Hen. }
    destruct (subscriber w) as [s|] eqn:Hs.
    + rewrite (unsubscribe_ok _ _ s) by done. simpl.
      intros s' [= <-]. simpl. destruct (Hwf s Hs) as [Hold Hnd].
      rewrite remove_last_filter by done. split.
      * by apply Forall_filter_keep.
      * by apply NoDup_filter.
    + unfold Topic.unsubscribe. unfold_M. by rewrite Hen, Hs.
  - destruct (deliver_frame w) as (r & w' & -> & Hcl & _ & _ & _ & Hsub). simpl.
    intros s' Hs'. rewrite Hsub in Hs'.
    destruct (subscriber w) as [s|] eqn:Hs; [|done].
    injection Hs' as <-. simpl. rewrite Hcl. by apply Hwf.
Qed.

(** Every process reached from the loading of the module is well formed. *)
Lemma well_formed_run script : ∀ w, well_formed w → well_formed (run script w).
Proof.
  induction script as [|a script IH]; intros w Hwf; [done|].
  simpl. by apply IH, well_formed_perform.
Qed.

Lemma well_formed_started w script :
  well_formed (run (Construct :: script) w).
Proof.
  simpl. apply well_formed_run. intros s [= <-]. simpl. split; constructor.
Qed.

(** ** Publishing on a channel the connection is not subscribed to *)

Lemma route_all_app l1 l2 r :
  route_all (l1 ++ l2) r = route_all l2 (route_all l1 r).
Proof. unfold route_all. apply foldl_app. Qed.

Lemma routed_unsubscribed X msgs s :
  X ∉ subscribed s → Forall (λ m, m.1 ≠ X) (routed msgs s).
Proof.
  intros HX. apply Forall_forall. intros m [Hm _]%list_elem_of_filter.
  by intros <-.
Qed.

Lemma publishes_unsubscribed X ds : ∀ w s,
  subscriber w = Some s →
  X ∉ subscribed s →
  ∃ r w' s' l,
    for_each (Topic.publish X) ds w = (r, w')
    ∧ subscriber w' = Some s'
    ∧ listeners s' = listeners s
    ∧ subscribed s' = subscribed s
    ∧ inbox s' = inbox s ++ l
    ∧ Forall (λ m, m.1 ≠ X) l
    ∧ calls w' = calls w.
Proof.
  induction ds as [|d ds IH]; intros w s Hs HX.
  - exists (Return ()), w, s, []. simpl. by rewrite app_nil_r.
  - simpl. unfold mbind, M_bind.
    destruct (publish_frame X d w) as (r & w1 & msgs & -> & Hs1 & _ & _ & _ & Hc1).
    rewrite Hs in Hs1. simpl in Hs1.
    destruct (route_all_frame msgs s) as (_ & Hsubs & Hls & Hin).
    destruct r as [[]|e].
    + destruct (IH w1 _ Hs1) as (r & w' & s' & l & -> & Hs' & Hls' & Hsubs' & Hin' & Hl & Hc');
        [by rewrite Hsubs|].
      exists r, w', s', (routed msgs s ++ l). split; [done|]. split; [done|].
      split; [congruence|]. split; [congruence|].
      split; [by rewrite Hin', Hin, app_assoc|].
      split; [|congruence]. apply Forall_app. split; [|done].
      by apply routed_unsubscribed.
    + eexists _, w1, _, (routed msgs s). split; [done|]. split; [done|].
      repeat (split; [done|]). split; [|done]. by apply routed_unsubscribed.
Qed.

(** ** Publishing a list of payloads that serialize *)

Lemma publishes_ok X : ∀ ds serials w p,
  disabled w = false →
  publisher w = Some p →
  Forall2 (λ d serial, ∃ o, heap w !! d = Some o
             ∧ JSON_stringify (stamp X (clock w) o) = inr serial) ds serials →
  ∃ w',
    for_each (Topic.publish X) ds w = (Return (), w')
    ∧ subscriber w' = route_all (flat_map (sends X) serials) <$> subscriber w
    ∧ calls w' = calls w
    ∧ closures w' = closures w.
Proof.
  induction ds as [|d ds IH]; intros serials w p Hen Hp Hall.
  - apply Forall2_nil_inv_l in Hall as ->. exists w. simpl.
    split; [done|]. by destruct (subscriber w).
  - apply Forall2_cons_inv_l in Hall as (serial & rest & (o & Hd & Hser) & Hall & ->).
    simpl. unfold mbind, M_bind.
    rewrite (publish_ok X d o p serial) by done.
    set (w1 := set_subscriber _ _).
    destruct (IH rest w1 (mkRedis (sent p ++ sends X serial) (subscribed p)
                           (listeners p) (inbox p))) as (w' & -> & Hs' & Hc' & Hcl');
      [done|done| |].
    + eapply Forall2_impl; [exact Hall|]. intros d' serial' (o' & Hd' & Hser').
      subst w1. simpl. destruct (decide (d = d')) as [->|Hne].
      * rewrite lookup_insert_eq. eexists. split; [done|].
        rewrite stamp_idemp. congruence.
      * rewrite lookup_insert_ne by done. eauto.
    + exists w'. split; [done|]. split; [|done].
      rewrite Hs'. subst w1.
      replace (flat_map (sends X) (serial :: rest))
        with (sends X serial ++ flat_map (sends X) rest) by done.
      destruct (subscriber w) as [s|]; [|done]. simpl.
      by rewrite route_all_app.
Qed.

(** ** Counting the calls of one callback *)

Lemma fired_app ls1 ls2 m : fired (ls1 ++ ls2) m = fired ls1 m ++ fired ls2 m.
Proof. unfold fired. apply flat_map_app. Qed.

Lemma fired_absent cb ls m :
  absent cb ls → filter (λ c : callback * args, c.1 = cb) (fired ls m) = [].
Proof.
  induction ls as [|f ls IH]; [done|]. intros [Hf Hls]%Forall_cons.
  unfold fired in *. simpl. rewrite filter_app, IH, app_nil_r by done.
  destruct f as [g|id c cb']; simpl.
  - by rewrite filter_cons, decide_False.
  - destruct (decide (m.1 = c)); [|done].
    destruct (JSON_parse m.2); [done|]. by rewrite filter_cons, decide_False.
Qed.

Lemma fired_cons f ls m : fired (f :: ls) m = fire m.1 m.2 f ++ fired ls m.
Proof. done. Qed.

(** One filter on [X] with callback [cb], anywhere on a stream that does not
    know [cb] otherwise, calls [cb] once for a message on [X] and not at all
    for a message on another channel. *)
Lemma filter_fires_once cb id X pre post c serial o' :
  absent cb pre →
  absent cb post →
  JSON_parse serial = inr o' →
  filter (λ call : callback * args, call.1 = cb)
    (fired (pre ++ Subscription id X cb :: post) (c, serial))
  = if decide (c = X) then [(cb, Payload o')] else [].
Proof.
  intros Hpre Hpost Hp.
  rewrite fired_app, fired_cons, !filter_app, !fired_absent by done.
  rewrite app_nil_l, app_nil_r. simpl.
  destruct (decide (c = X)); [|done]. rewrite Hp.
  by rewrite filter_cons, decide_True.
Qed.

(** What such a stream makes of the traffic of publishes on [X]. *)
Lemma invocations_of_publishes X cb ls s serials os :
  (∀ c serial o',
     JSON_parse serial = inr o' →
     filter (λ call : callback * args, call.1 = cb) (fired ls (c, serial))
     = if decide (c = X) then [(cb, Payload o')] else []) →
  X ∈ subscribed s →
  Forall2 (λ serial o', JSON_parse serial = inr o') serials os →
  filter (λ c : callback * args, c.1 = cb)
    (flat_map (fired ls) (routed (flat_map (sends X) serials) s))
  = map (λ o', (cb, Payload o')) os.
Proof.
  intros Hone HX Hall. induction Hall as [|serial o' serials os Hp _ IH]; [done|].
  simpl. unfold routed in *. rewrite filter_app, flat_map_app, filter_app, IH.
  change ((cb, Payload o') :: map (λ o, (cb, Payload o)) os)
    with ([(cb, Payload o')] ++ map (λ o : object, (cb, Payload o)) os).
  f_equal.
  unfold sends. destruct (decide (X ≠ channels.ALL)) as [Hne|Heq].
  - rewrite !filter_cons, filter_nil. simpl.
    rewrite (decide_True _ _ HX).
    destruct (decide (channels.ALL ∈ subscribed s)); simpl.
    + rewrite app_nil_r, filter_app, !(Hone _ serial o') by done.
      rewrite decide_False by done. by rewrite decide_True.
    + rewrite app_nil_r, (Hone _ serial o') by done. by rewrite decide_True.
  - rewrite filter_cons, filter_nil. simpl. rewrite (decide_True _ _ HX). simpl.
    rewrite app_nil_r, (Hone _ serial o') by done. by rewrite decide_True.
Qed.

End Facts.

Section Claims.
Context `{JSON}.

(** C5.  While the disabled flag is set, [publish], [subscribe] and
    [unsubscribe] return normally and leave the whole world as it was: no
    PUBLISH, SUBSCRIBE or UNSUBSCRIBE reaches a handle, the payload is not
    stamped, the listeners are the same, no caller function is called. *)
Theorem disabled_is_noop w channel data callback handle :
  disabled w = true →
  Topic.publish channel data w = (Return (), w)
  ∧ Topic.subscribe channel callback w = (Return (), w)
  ∧ Topic.unsubscribe channel handle w = (Return (), w).
Proof.
  intros Hd.
  unfold Topic.publish, Topic.subscribe, Topic.unsubscribe.
  unfold_M. by rewrite Hd.
Qed.

(** C1.  An enabled [publish(channel, payload)] whose payload serializes to
    [serial] issues on the outbound handle, after whatever was sent before,
    exactly [("all", serial)] then [(channel, serial)] when [channel] is
    not "all", and exactly the one [("all", serial)] when it is. *)
Theorem publish_fans_out w channel data o p serial :
  disabled w = false →
  publisher w = Some p →
  heap w !! data = Some o →
  JSON_stringify (stamp channel (clock w) o) = inr serial →
  ∃ w' p',
    Topic.publish channel data w = (Return (), w')
    ∧ publisher w' = Some p'
    ∧ (channel ≠ channels.ALL →
       sent p' = sent p ++ [(channels.ALL, serial); (channel, serial)])
    ∧ (channel = channels.ALL →
       sent p' = sent p ++ [(channels.ALL, serial)]).
Proof.
  intros Hen Hp Hd Hs.
  eexists _, _. split; [by apply (publish_ok _ _ o p serial)|].
  split; [reflexivity|]. simpl. unfold sends.
  split; intros Hc.
  - by rewrite decide_True.
  - rewrite decide_False by (intros Hn; by apply Hn). by rewrite Hc.
Qed.

(** C9.  When [JSON.stringify] throws [e] on the stamped payload, an
    enabled [publish] throws that same [e] to its caller, and neither
    handle has seen anything: nothing was sent, nothing was routed. *)
Theorem publish_rethrows w channel data o e :
  disabled w = false →
  heap w !! data = Some o →
  JSON_stringify (stamp channel (clock w) o) = inl e →
  ∃ w',
    Topic.publish channel data w = (Throw e, w')
    ∧ publisher w' = publisher w
    ∧ subscriber w' = subscriber w
    ∧ calls w' = calls w.
Proof.
  intros Hen Hd Hs. eexists. rewrite (publish_enabled _ _ o) by done.
  rewrite Hs. done.
Qed.

(** C10.  An enabled publish on a channel other than "all" calls
    [serialize] once, and the one string it returned is the message of both
    sends; a connection subscribed to both channels is handed that string
    twice, and a filter on "all" and a filter on [channel] hand their
    callbacks the same parsed object, hence the same timestamp. *)
Theorem publish_serializes_once w channel data o p serial :
  disabled w = false →
  publisher w = Some p →
  heap w !! data = Some o →
  JSON_stringify (stamp channel (clock w) o) = inr serial →
  channel ≠ channels.ALL →
  ∃ w' p',
    Topic.publish channel data w = (Return (), w')
    ∧ serialized w' = S (serialized w)
    ∧ publisher w' = Some p'
    ∧ sent p' = sent p ++ [(channels.ALL, serial); (channel, serial)]
    ∧ (∀ s, subscriber w = Some s →
         channels.ALL ∈ subscribed s → channel ∈ subscribed s →
         ∃ s', subscriber w' = Some s'
           ∧ inbox s' = inbox s ++ [(channels.ALL, serial); (channel, serial)])
    ∧ (∀ o' i j onAll onChannel w2,
         JSON_parse serial = inr o' →
         apply_listener (Subscription i channels.ALL onAll) channels.ALL serial w2
           = (Return (), set_calls (calls w2 ++ [(onAll, Payload o')]) w2)
         ∧ apply_listener (Subscription j channel onChannel) channel serial w2
           = (Return (), set_calls (calls w2 ++ [(onChannel, Payload o')]) w2)).
Proof.
  intros Hen Hp Hd Hs Hc.
  eexists _, _. split; [by apply (publish_ok _ _ o p serial)|].
  split; [reflexivity|]. split; [reflexivity|].
  unfold sends. rewrite decide_True by done.
  split; [done|]. split.
  - intros s Hsub Hall Hch. eexists. split; [cbn; by rewrite Hsub|].
    destruct (route_all_frame [(channels.ALL, serial); (channel, serial)] s)
      as (_ & _ & _ & ->).
    unfold routed. rewrite !filter_cons, filter_nil. simpl.
    by rewrite !decide_True.
  - intros o' i j onAll onChannel w2 Ho'.
    rewrite !apply_listener_parsed by (by exists o'). simpl.
    by rewrite !decide_True, Ho'.
Qed.

(** C6.  An enabled publish stores a [timestamp] field holding the clock and
    a [channel] field holding the channel name in the caller's own object,
    whatever happens afterwards; fields of those names are overwritten, the
    others are kept.  Whatever the publish then sends, or the subscriber is
    handed, is the serialization of the object so stamped, and a filter on
    the channel hands its callback the stamped object when the codec parses
    the message back to it. *)
Theorem publish_stamps_in_place w channel data o :
  disabled w = false →
  heap w !! data = Some o →
  let envelope := stamp channel (clock w) o in
  ∃ r w',
    Topic.publish channel data w = (r, w')
    ∧ heap w' = <[data := envelope]> (heap w)
    ∧ envelope !! "timestamp" = Some (VNum (clock w))
    ∧ envelope !! "channel" = Some (VStr channel)
    ∧ (∀ k, k ≠ "timestamp" → k ≠ "channel" → envelope !! k = o !! k)
    ∧ (∀ p, publisher w = Some p →
         ∃ p' l, publisher w' = Some p' ∧ sent p' = sent p ++ l
           ∧ Forall (λ m, JSON_stringify envelope = inr m.2) l)
    ∧ (∀ s, subscriber w = Some s →
         ∃ s' l, subscriber w' = Some s' ∧ inbox s' = inbox s ++ l
           ∧ Forall (λ m, JSON_stringify envelope = inr m.2) l)
    ∧ (∀ serial id cb w2,
         JSON_stringify envelope = inr serial →
         JSON_parse serial = inr envelope →
         apply_listener (Subscription id channel cb) channel serial w2
           = (Return (), set_calls (calls w2 ++ [(cb, Payload envelope)]) w2)).
Proof.
  intros Hen Hd envelope.
  assert (Hlast : ∀ serial id cb w2,
    JSON_stringify envelope = inr serial →
    JSON_parse serial = inr envelope →
    apply_listener (Subscription id channel cb) channel serial w2
      = (Return (), set_calls (calls w2 ++ [(cb, Payload envelope)]) w2)).
  { intros serial id cb w2 _ Hp.
    rewrite apply_listener_parsed by (by exists envelope). simpl.
    by rewrite decide_True, Hp. }
  assert (Hfields : envelope !! "timestamp" = Some (VNum (clock w))
    ∧ envelope !! "channel" = Some (VStr channel)
    ∧ (∀ k, k ≠ "timestamp" → k ≠ "channel" → envelope !! k = o !! k)).
  { split; [apply stamp_timestamp|]. split; [apply stamp_channel|].
    intros k. apply stamp_other. }
  destruct Hfields as (Hts & Hch & Hother).
  rewrite (publish_enabled _ _ o) by done. fold envelope.
  destruct (JSON_stringify envelope) as [e|serial] eqn:Hs.
  - eexists _, _. split; [reflexivity|]. repeat (split; [done|]). split.
    + intros p Hp. exists p, []. simpl. by rewrite app_nil_r.
    + split; [|apply Hlast]. intros s Hsub. exists s, []. simpl.
      by rewrite app_nil_r.
  - destruct (publisher w) as [p|] eqn:Hp.
    + rewrite (sends_publisher _ p) by done.
      eexists _, _. split; [reflexivity|]. repeat (split; [done|]). split.
      * intros p0 [= <-]. eexists _, (sends channel serial). simpl.
        split; [done|]. split; [done|].
        unfold sends. destruct (decide (channel ≠ channels.ALL));
          repeat constructor.
      * split; [|apply Hlast]. intros s Hsub. simpl. rewrite Hsub. simpl.
        eexists _, (routed (sends channel serial) s). split; [done|].
        destruct (route_all_frame (sends channel serial) s) as (_ & _ & _ & ->).
        split; [done|]. unfold routed. apply Forall_filter_keep.
        unfold sends. destruct (decide (channel ≠ channels.ALL));
          repeat constructor.
    + assert (Hthrow : for_each (λ m, publisher_publish m.1 m.2)
                (sends channel serial) (published channel data o w)
              = (Throw (TypeError "this.publisher is undefined"),
                 published channel data o w)).
      { unfold sends. destruct (decide (channel ≠ channels.ALL));
          simpl; unfold_M; simpl; by rewrite Hp. }
      rewrite Hthrow.
      eexists _, _. split; [reflexivity|]. repeat (split; [done|]).
      split; [|apply Hlast]. intros s Hsub. exists s, []. simpl.
      by rewrite app_nil_r.
Qed.

(** C8, as the constructor is written.  [new Topic()] takes no argument,
    sets the flag to false and only then tests it: whatever the process was
    before, the Router comes out ENABLED with both handles freshly opened,
    and nothing else of the world changes.  From there the Router stays
    ENABLED, with both handles open, as long as [disable] is not called. *)
Theorem constructor_starts_enabled w :
  (∃ w',
     Topic.constructor w = (Return (), w')
     ∧ disabled w' = false
     ∧ publisher w' = Some new_Redis
     ∧ subscriber w' = Some new_Redis
     ∧ heap w' = heap w ∧ calls w' = calls w)
  ∧ (∀ script,
       Disable ∉ script →
       let w' := run (Construct :: script) w in
       disabled w' = false
       ∧ is_Some (publisher w') ∧ is_Some (subscriber w')).
Proof.
  split.
  - eexists. split; [reflexivity|]. done.
  - intros script Hno w'. split; [|apply handles_open_started].
    subst w'. change (run (Construct :: script) w)
      with (run script (Topic.constructor w).2).
    by apply enabled_run.
Qed.

(** C2.  [subscribe(X, callback)] on an enabled Router appends one filter to
    the stream.  Called with a message tagged [Y ≠ X] that filter returns
    without doing anything; called with a message tagged [X] it hands the
    parsed message to the callback, once.  And on any stream where the
    callback sits only inside filters bound to [X], emitting a message tagged
    [Y ≠ X] adds no call of that callback. *)
Theorem subscription_is_isolated w X cb s :
  disabled w = false →
  subscriber w = Some s →
  let f := Subscription (closures w) X cb in
  ∃ w' s',
    Topic.subscribe X cb w = (Return (), w')
    ∧ subscriber w' = Some s'
    ∧ listeners s' = listeners s ++ [f]
    ∧ (∀ Y data w2, Y ≠ X → apply_listener f Y data w2 = (Return (), w2))
    ∧ (∀ data o w2,
         JSON_parse data = inr o →
         apply_listener f X data w2
           = (Return (), set_calls (calls w2 ++ [(cb, Payload o)]) w2))
    ∧ (∀ Y data w2 s2 r w3,
         Y ≠ X →
         subscriber w2 = Some s2 →
         registered_only_on X cb (listeners s2) →
         emit Y data w2 = (r, w3) →
         invocations cb w3 = invocations cb w2).
Proof.
  intros Hen Hs f. eexists _, _.
  split; [by apply subscribe_ok|]. split; [reflexivity|]. split; [done|].
  split; [|split].
  - intros Y data w2 Hne. simpl. unfold Topic.subscription.
    by rewrite decide_False.
  - intros data o w2 Hp. rewrite apply_listener_parsed by (by exists o).
    simpl. by rewrite decide_True, Hp.
  - intros Y data w2 s2 r w3 Hne Hs2 Hreg Hrun.
    unfold emit in Hrun. unfold mbind, M_bind, get in Hrun. rewrite Hs2 in Hrun.
    by eapply listeners_isolated.
Qed.

(** C7, as the code has it.  [unsubscribe(channel, handle)] on an enabled
    Router with a handle that is not on the stream throws nothing and leaves
    every registered filter in place, but it does tell the inbound handle to
    UNSUBSCRIBE the channel: that is its whole effect, so publishes on the
    channel are no longer handed to this connection and the filters on it
    receive nothing more.  Only when the channel was not subscribed is the
    call without any effect. *)
Theorem unsubscribe_unknown_handle w X f s :
  disabled w = false →
  subscriber w = Some s →
  f ∉ listeners s →
  ∃ w1 s1,
    Topic.unsubscribe X f w = (Return (), w1)
    ∧ w1 = set_subscriber (Some s1) w
    ∧ s1 = Redis_unsubscribe X s
    ∧ listeners s1 = listeners s
    ∧ (X ∉ subscribed s1)
    ∧ (X ∉ subscribed s → w1 = w)
    ∧ (∀ ds, ∃ r w2 s2 l,
         for_each (Topic.publish X) ds w1 = (r, w2)
         ∧ subscriber w2 = Some s2
         ∧ listeners s2 = listeners s
         ∧ inbox s2 = inbox s ++ l
         ∧ Forall (λ m, m.1 ≠ X) l).
Proof.
  intros Hen Hs Hf. eexists _, _.
  split; [by apply unsubscribe_ok|].
  rewrite remove_last_notin by done.
  split; [reflexivity|]. split; [reflexivity|]. split; [done|].
  split; [apply unsubscribed_after|]. split.
  - intros HX. unfold Redis_unsubscribe.
    rewrite unsubscribe_not_subscribed by done.
    destruct w, s; simpl in *; by subst.
  - intros ds.
    destruct (publishes_unsubscribed X ds
                (set_subscriber (Some (Redis_unsubscribe X s)) w)
                (Redis_unsubscribe X s))
      as (r & w2 & s2 & l & Hrun & Hs2 & Hls & _ & Hin & Hl & _);
      [done|apply unsubscribed_after|].
    by exists r, w2, s2, l.
Qed.

(** C4, as the code has it.  [unsubscribe(channel, handle)] on an enabled
    Router with the very filter a [subscribe] put on the stream takes that
    filter off the stream and leaves every other filter on it, in order; it
    also tells the inbound handle to UNSUBSCRIBE the channel.  From then on
    no publish on the channel hands this connection a message tagged with
    it, so neither the targeted callback nor any other filter of that
    channel is called for these publishes. *)
Theorem unsubscribe_exact_handle w X id cb s :
  disabled w = false →
  subscriber w = Some s →
  NoDup (listeners s) →
  Subscription id X cb ∈ listeners s →
  let f := Subscription id X cb in
  ∃ w1 s1,
    Topic.unsubscribe X f w = (Return (), w1)
    ∧ subscriber w1 = Some s1
    ∧ listeners s1 = filter (λ g, g ≠ f) (listeners s)
    ∧ (f ∉ listeners s1)
    ∧ subscribed s1 = subscribed s ∖ {[X]}
    ∧ inbox s1 = inbox s
    ∧ calls w1 = calls w
    ∧ (∀ ds, ∃ r w2 s2 l,
         for_each (Topic.publish X) ds w1 = (r, w2)
         ∧ subscriber w2 = Some s2
         ∧ listeners s2 = listeners s1
         ∧ inbox s2 = inbox s ++ l
         ∧ Forall (λ m, m.1 ≠ X) l
         ∧ calls w2 = calls w).
Proof.
  intros Hen Hs Hnd Hin f. eexists _, _.
  split; [by apply unsubscribe_ok|]. split; [reflexivity|]. simpl.
  rewrite remove_last_filter by done.
  split; [done|]. split.
  { intros [Hne _]%list_elem_of_filter. by apply Hne. }
  repeat (split; [done|]).
  intros ds.
  match goal with |- context [for_each _ ds ?w1] =>
    destruct (publishes_unsubscribed X ds w1
                (mkRedis (sent s) (subscribed s ∖ {[X]})
                   (filter (λ g, g ≠ f) (listeners s)) (inbox s)))
      as (r & w2 & s2 & l & Hrun & Hs2 & Hls & _ & Hinb & Hl & Hc);
      [done|apply unsubscribed_after|]
  end.
  by exists r, w2, s2, l.
Qed.

(** C3.  On an enabled, well-formed Router, (a) [subscribe] appends one
    filter that was not on the stream before, whether or not the same channel
    and callback are there already; (b) after subscribing the same pair
    twice, a message on the channel makes the old listeners react and then
    calls the callback twice; (c) when one filter of [X] with callback [cb]
    is on the stream, the stream knows [cb] in no other listener, the inbound
    handle is subscribed to [X] and nothing is waiting, publishing [N]
    payloads on [X] and letting the event loop run calls [cb] once per
    payload, with the parsed envelopes in publish order. *)
Theorem subscribe_multiplicity w X cb p s :
  disabled w = false →
  publisher w = Some p →
  subscriber w = Some s →
  well_formed w →
  (∃ w1 s1,
     Topic.subscribe X cb w = (Return (), w1)
     ∧ subscriber w1 = Some s1
     ∧ listeners s1 = listeners s ++ [Subscription (closures w) X cb]
     ∧ (Subscription (closures w) X cb ∉ listeners s)
     ∧ length (listeners s1) = S (length (listeners s)))
  ∧ (∃ w2 s2,
       (Topic.subscribe X cb;; Topic.subscribe X cb) w = (Return (), w2)
       ∧ subscriber w2 = Some s2
       ∧ listeners s2 = listeners s ++ [Subscription (closures w) X cb;
                                        Subscription (S (closures w)) X cb]
       ∧ ∀ data o,
           JSON_parse data = inr o →
           emit X data w2 =
             (Return (),
              set_calls (calls w2 ++ fired (listeners s) (X, data)
                           ++ [(cb, Payload o); (cb, Payload o)]) w2))
  ∧ (∀ id pre post ds serials os,
       listeners s = pre ++ Subscription id X cb :: post →
       absent cb pre →
       absent cb post →
       X ∈ subscribed s →
       inbox s = [] →
       Forall2 (λ d serial, ∃ o, heap w !! d = Some o
                  ∧ JSON_stringify (stamp X (clock w) o) = inr serial) ds serials →
       Forall2 (λ serial o', JSON_parse serial = inr o') serials os →
       ∃ w3,
         (for_each (Topic.publish X) ds;; drain) w = (Return (), w3)
         ∧ invocations cb w3
           = invocations cb w ++ map (λ o', (cb, Payload o')) os
         ∧ length (map (λ o', (cb, Payload o')) os) = length ds).
Proof.
  intros Hen Hp Hs Hwf. destruct (Hwf s Hs) as [Hold Hnd].
  split; [|split].
  - eexists _, _. split; [by apply subscribe_ok|]. split; [reflexivity|].
    simpl. split; [done|]. split; [by eapply older_fresh|].
    rewrite length_app. simpl. lia.
  - eexists _, _. split.
    { unfold mbind, M_bind. rewrite (subscribe_ok _ _ s) by done.
      by erewrite subscribe_ok by (done || reflexivity). }
    split; [reflexivity|]. simpl. rewrite <- app_assoc. split; [done|].
    intros data o Ho.
    erewrite emit_parsed; [|reflexivity|by exists o]. simpl.
    rewrite fired_app. unfold fired at 2. simpl.
    by rewrite decide_True, Ho.
  - intros id pre post ds serials os Hls Hpre Hpost HX Hempty Hser Hparse.
    unfold mbind, M_bind.
    destruct (publishes_ok X ds serials w p) as (w2 & -> & Hs2 & Hc2 & _);
      [done..|].
    rewrite Hs in Hs2. simpl in Hs2.
    destruct (route_all_frame (flat_map (sends X) serials) s)
      as (_ & _ & Hls2 & Hinb).
    erewrite drain_parsed; [|exact Hs2|].
    + eexists. split; [reflexivity|]. split.
      * unfold invocations. simpl. rewrite Hc2, filter_app. f_equal.
        rewrite Hls2, Hinb, Hempty, Hls. simpl.
        apply invocations_of_publishes; [|done|done].
        intros c serial o' Ho'. by apply filter_fires_once.
      * rewrite length_map.
        apply Forall2_length in Hser, Hparse. congruence.
    + rewrite Hinb, Hempty. simpl.
      apply Forall_filter_keep. apply Forall_forall.
      intros [c m] Hm. apply list_elem_of_In, in_flat_map in Hm
        as (serial & Hin & Hm). simpl.
      assert (m = serial) as ->.
      { unfold sends in Hm. destruct (decide (X ≠ channels.ALL));
          simpl in Hm; intuition congruence. }
      apply list_elem_of_In, list_elem_of_lookup in Hin as [i Hi].
      destruct (Forall2_lookup_l _ _ _ _ _ Hparse Hi) as (o' & _ & Ho').
      by exists o'.
Qed.

End Claims.

(** C5 on the sample process after [disable()]. *)
Lemma disabled_is_noop_witness :
  let w := Sample.after Topic.disable Sample.started in
  disabled w = true
  ∧ Topic.publish (H := MiniJSON.codec) "A" 0 w = (Return (), w)
  ∧ Topic.subscribe "A" 5 w = (Return (), w)
  ∧ Topic.unsubscribe "A" (Caller 5) w = (Return (), w).
Proof.
  intros w. split; [reflexivity|].
  apply (disabled_is_noop (H := MiniJSON.codec)). reflexivity.
Defined.

(** C8 as stated fails: no process comes out of the constructor DISABLED
    with its handles unopened. *)
Lemma constructor_never_disabled :
  ¬ ∃ w, let w' := (Topic.constructor w).2 in
         disabled w' = true ∧ publisher w' = None ∧ subscriber w' = None.
Proof. intros (w & Hd & _). simpl in Hd. discriminate. Qed.

(** C4 as stated fails.  Two filters on "X"; the first is unsubscribed with
    its own handle.  The second is still on the stream, the next publish on
    "X" is sent, and its callback is not called. *)
Lemma unsubscribe_silences_the_channel :
  let w := run (H := MiniJSON.codec)
             [Construct; Subscribe "X" 1; Subscribe "X" 2;
              Unsubscribe "X" (Subscription 0 "X" 1)] Sample.blank in
  let w' := run (H := MiniJSON.codec) [Publish "X" 0; Turn; Turn] w in
  (listeners <$> subscriber w) = Some [Subscription 1 "X" 2]
  ∧ (length ∘ sent <$> publisher w') = Some 2
  ∧ invocations 2 w' = [].
Proof. vm_compute. done. Qed.

(** C7 as stated fails.  One filter on "C"; [unsubscribe] is called with the
    callback, which is not a listener of the stream.  Without that call a
    publish on "C" reaches the callback; with it, it does not. *)
Lemma unsubscribe_unknown_handle_stops_delivery :
  let w := run (H := MiniJSON.codec) [Construct; Subscribe "C" 5] Sample.blank in
  (listeners <$> subscriber w) = Some [Subscription 0 "C" 5]
  ∧ length (invocations 5
      (run (H := MiniJSON.codec) [Publish "C" 0; Turn; Turn] w)) = 1
  ∧ length (invocations 5
      (run (H := MiniJSON.codec)
         [Unsubscribe "C" (Caller 5); Publish "C" 0; Turn; Turn] w)) = 0.
Proof. vm_compute. done. Qed.

(** ** The theorems at work on the sample process *)

(** C1: a publish of [{text: "hello world"}] on "A". *)
Lemma publish_fans_out_witness :
  ∃ w' p',
    Topic.publish (H := MiniJSON.codec) "A" 0 Sample.started = (Return (), w')
    ∧ publisher w' = Some p'
    ∧ sent p' = [("all", Sample.wire "A" Sample.hello);
                 ("A", Sample.wire "A" Sample.hello)].
Proof.
  destruct (publish_fans_out (H := MiniJSON.codec) Sample.started "A" 0
              Sample.hello new_Redis (Sample.wire "A" Sample.hello))
    as (w' & p' & Hrun & Hp & Hne & _);
    [reflexivity|reflexivity|vm_compute; reflexivity|vm_compute; reflexivity|].
  exists w', p'. split; [exact Hrun|]. split; [exact Hp|].
  apply Hne. discriminate.
Defined.

(** C9: a publish of [{big: 10n}]. *)
Lemma publish_rethrows_witness :
  ∃ w',
    Topic.publish (H := MiniJSON.codec) "A" 2 Sample.started
      = (Throw (TypeError "Do not know how to serialize a BigInt"), w')
    ∧ publisher w' = publisher Sample.started
    ∧ subscriber w' = subscriber Sample.started
    ∧ calls w' = calls Sample.started.
Proof.
  apply (publish_rethrows (H := MiniJSON.codec) Sample.started "A" 2 Sample.big);
    vm_compute; reflexivity.
Defined.

(** C10: a publish on "A" while subscribed to "all" and to "A". *)
Lemma publish_serializes_once_witness :
  let w := run (H := MiniJSON.codec)
             [Construct; Subscribe "all" 7; Subscribe "A" 8] Sample.blank in
  ∃ w',
    Topic.publish (H := MiniJSON.codec) "A" 0 w = (Return (), w')
    ∧ serialized w' = 1
    ∧ waiting w' = [("all", Sample.wire "A" Sample.hello);
                    ("A", Sample.wire "A" Sample.hello)].
Proof.
  intros w.
  destruct (publish_serializes_once (H := MiniJSON.codec) w "A" 0
              Sample.hello new_Redis (Sample.wire "A" Sample.hello))
    as (w' & p' & Hrun & Hn & _ & _ & Hin & _);
    [reflexivity|reflexivity|vm_compute; reflexivity|vm_compute; reflexivity
    |discriminate|].
  exists w'. split; [exact Hrun|]. split; [exact Hn|].
  destruct (Hin (mkRedis [] ({[ "A" ]} ∪ ({[ "all" ]} ∪ ∅))
                   [Subscription 0 "all" 7; Subscription 1 "A" 8] []))
    as (s' & Hs' & Hinbox); [reflexivity|vm_compute; reflexivity..|].
  unfold waiting. rewrite Hs'. exact Hinbox.
Defined.

(** C6: a publish of an object that already has a [channel] and a
    [timestamp]. *)
Lemma publish_stamps_in_place_witness :
  ∃ r w' envelope,
    Topic.publish (H := MiniJSON.codec) "A" 1 Sample.started = (r, w')
    ∧ heap w' !! 1 = Some envelope
    ∧ envelope !! "timestamp" = Some (VNum Sample.now)
    ∧ envelope !! "channel" = Some (VStr "A")
    ∧ envelope !! "id" = Some (VNum 1)
    ∧ apply_listener (H := MiniJSON.codec) (Subscription 0 "A" 5) "A"
        (Sample.wire "A" Sample.stale) w'
      = (Return (), set_calls (calls w' ++ [(5, Payload envelope)]) w').
Proof.
  destruct (publish_stamps_in_place (H := MiniJSON.codec) Sample.started "A" 1
              Sample.stale)
    as (r & w' & Hrun & Hheap & Hts & Hch & Hother & _ & _ & Hlistener);
    [reflexivity|vm_compute; reflexivity|].
  exists r, w', (stamp "A" (clock Sample.started) Sample.stale).
  split; [exact Hrun|]. split; [rewrite Hheap; apply lookup_insert_eq|].
  split; [exact Hts|]. split; [exact Hch|].
  split; [rewrite Hother by discriminate; vm_compute; reflexivity|].
  apply Hlistener; vm_compute; reflexivity.
Defined.

(** C2: the filter of a subscription to "X" on a message tagged "Y". *)
Lemma subscription_is_isolated_witness :
  ∃ w',
    Topic.subscribe "X" 4 Sample.started = (Return (), w')
    ∧ apply_listener (H := MiniJSON.codec) (Subscription 0 "X" 4) "Y" "{}" w'
      = (Return (), w').
Proof.
  destruct (subscription_is_isolated (H := MiniJSON.codec) Sample.started "X" 4
              new_Redis)
    as (w' & s' & Hrun & _ & _ & Hother & _); [reflexivity..|].
  exists w'. split; [exact Hrun|]. apply Hother. discriminate.
Defined.

(** C7: the callback itself passed as the handle. *)
Lemma unsubscribe_unknown_handle_witness :
  let w := run (H := MiniJSON.codec) [Construct; Subscribe "C" 5] Sample.blank in
  ∃ w1 s1,
    Topic.unsubscribe "C" (Caller 5) w = (Return (), w1)
    ∧ subscriber w1 = Some s1
    ∧ listeners s1 = [Subscription 0 "C" 5]
    ∧ "C" ∉ subscribed s1.
Proof.
  intros w.
  destruct (unsubscribe_unknown_handle (H := MiniJSON.codec) w "C" (Caller 5)
              (mkRedis [] ({[ "C" ]} ∪ ∅) [Subscription 0 "C" 5] []))
    as (w1 & s1 & Hrun & Hw1 & Hs1 & Hls & Hsub & _);
    [reflexivity|reflexivity| |].
  - simpl. rewrite list_elem_of_singleton. discriminate.
  - exists w1, s1. split; [exact Hrun|]. split; [by rewrite Hw1|].
    split; [exact Hls|exact Hsub].
Defined.

(** C4: the first of two filters on "X" removed with its own handle. *)
Lemma unsubscribe_exact_handle_witness :
  let w := run (H := MiniJSON.codec)
             [Construct; Subscribe "X" 1; Subscribe "X" 2] Sample.blank in
  ∃ w1 s1,
    Topic.unsubscribe "X" (Subscription 0 "X" 1) w = (Return (), w1)
    ∧ subscriber w1 = Some s1
    ∧ listeners s1 = [Subscription 1 "X" 2]
    ∧ ∃ r w2 s2,
        for_each (Topic.publish (H := MiniJSON.codec) "X") [0; 1] w1 = (r, w2)
        ∧ subscriber w2 = Some s2
        ∧ Forall (λ m, m.1 ≠ "X") (inbox s2)
        ∧ calls w2 = [].
Proof.
  intros w.
  destruct (unsubscribe_exact_handle (H := MiniJSON.codec) w "X" 0 1
              (mkRedis [] ({[ "X" ]} ∪ ({[ "X" ]} ∪ ∅))
                 [Subscription 0 "X" 1; Subscription 1 "X" 2] []))
    as (w1 & s1 & Hrun & Hs1 & Hls & _ & _ & _ & _ & Hlater);
    [reflexivity|reflexivity| | |].
  - simpl. apply NoDup_cons. split.
    + rewrite list_elem_of_singleton. discriminate.
    + apply NoDup_singleton.
  - simpl. apply list_elem_of_here.
  - exists w1, s1. split; [exact Hrun|]. split; [exact Hs1|].
    split; [rewrite Hls; vm_compute; reflexivity|].
    destruct (Hlater [0; 1]) as (r & w2 & s2 & l & Hpub & Hs2 & _ & Hin & Hl & Hc).
    exists r, w2, s2. split; [exact Hpub|]. split; [exact Hs2|].
    split; [by rewrite Hin|exact Hc].
Defined.

(** C3: three publishes on "B", the first object published twice, while one
    filter of "B" is on the stream and "B" is subscribed. *)
Lemma subscribe_multiplicity_witness :
  let w := Sample.listening [Subscription 0 "B" 9] {[ "B" ]} in
  ∃ w3,
    (for_each (Topic.publish (H := MiniJSON.codec) "B") [0; 1; 0];;
     drain (H := MiniJSON.codec)) w = (Return (), w3)
    ∧ invocations 9 w3 =
        [(9, Payload (stamp "B" Sample.now Sample.hello));
         (9, Payload (stamp "B" Sample.now Sample.stale));
         (9, Payload (stamp "B" Sample.now Sample.hello))].
Proof.
  intros w.
  destruct (subscribe_multiplicity (H := MiniJSON.codec) w "B" 9
              new_Redis (mkRedis [] {[ "B" ]} [Subscription 0 "B" 9] []))
    as (_ & _ & Hmany); [reflexivity|reflexivity|reflexivity| |].
  - intros s [= <-]. split.
    + repeat constructor.
    + apply NoDup_singleton.
  - destruct (Hmany 0 [] [] [0; 1; 0]
                [Sample.wire "B" Sample.hello; Sample.wire "B" Sample.stale;
                 Sample.wire "B" Sample.hello]
                [stamp "B" Sample.now Sample.hello;
                 stamp "B" Sample.now Sample.stale;
                 stamp "B" Sample.now Sample.hello])
      as (w3 & Hrun & Hcalls & _).
    + reflexivity.
    + constructor.
    + constructor.
    + vm_compute. reflexivity.
    + reflexivity.
    + repeat (apply Forall2_cons; split;
                [eexists; split; vm_compute; reflexivity|]).
      apply Forall2_nil_2; reflexivity.
    + repeat (apply Forall2_cons; split; [vm_compute; reflexivity|]).
      apply Forall2_nil_2; reflexivity.
    + exists w3. split; [exact Hrun|exact Hcalls].
Defined.

(** ** The repository's tests, replayed

    The scripts of the four tests, run on the model, in which the server has
    taken every command by the time the call that issued it returns. *)

(** "topic should not be disabled on startup" *)
Example test_not_disabled_on_startup : disabled Sample.started = false.
Proof. reflexivity. Qed.

(** "#subscribe() listens to events published in it's channel": the callback
    is called once, with the text it was published with. *)
Example test_subscribe_listens :
  let w := run (H := MiniJSON.codec)
             [Construct; Subscribe "A" 5; Publish "A" 0; Turn; Turn] Sample.blank in
  ∃ datum, calls w = [(5, Payload datum)]
           ∧ datum !! "text" = Some (VStr "hello world")
           ∧ datum !! "timestamp" = Some (VNum Sample.now).
Proof. eexists. vm_compute. done. Qed.

(** "#subscribe() does not leak events outside of it's channel" *)
Example test_subscribe_does_not_leak :
  let w := run (H := MiniJSON.codec)
             [Construct; Subscribe "Y" 3; Subscribe "X" 4; Publish "X" 1;
              Turn; Turn] Sample.blank in
  invocations 3 w = [] ∧ length (invocations 4 w) = 1.
Proof. vm_compute. done. Qed.

(** "#publish() will call a subscription multiple times." *)
Example test_publish_three_times :
  let w := run (H := MiniJSON.codec)
             [Construct; Subscribe "B" 5; Publish "B" 0; Publish "B" 1;
              Publish "B" 0; Subscribe "N" 6; Publish "N" 1;
              Turn; Turn; Turn; Turn; Turn; Turn; Turn; Turn] Sample.blank in
  map fst (calls w) = [5; 5; 5; 6].
Proof. vm_compute. done. Qed.

(** "#unsubscribe() will remove listeners from a channel": the test passes
    the callback, not the filter, and expects one call in all. *)
Example test_unsubscribe_removes :
  let w := run (H := MiniJSON.codec)
             [Construct; Subscribe "C" 5; Publish "C" 0;
              Unsubscribe "C" (Caller 5); Publish "C" 1; Publish "C" 0;
              Subscribe "ENDTEST" 6; Publish "ENDTEST" 1;
              Turn; Turn; Turn; Turn; Turn; Turn; Turn; Turn] Sample.blank in
  map fst (calls w) = [5; 6].
Proof. vm_compute. done. Qed.

(** C8: the sample process, started even with the flag set beforehand, and
    then used without a call of [disable]. *)
Lemma constructor_starts_enabled_witness :
  let w := run (H := MiniJSON.codec)
             [Construct; Subscribe "A" 5; Publish "A" 0; Turn; Enable]
             (set_disabled true Sample.blank) in
  disabled w = false ∧ is_Some (publisher w) ∧ is_Some (subscriber w).
Proof.
  destruct (constructor_starts_enabled (H := MiniJSON.codec)
              (set_disabled true Sample.blank)) as [_ Hlater].
  apply (Hlater [Subscribe "A" 5; Publish "A" 0; Turn; Enable]).
  rewrite !not_elem_of_cons. repeat (split; [discriminate|]).
  apply not_elem_of_nil.
Defined.

(** * Further properties of the class *)

Section Lifecycle.
Context `{JSON}.

Lemma run_app script1 script2 w :
  run (script1 ++ script2) w = run script2 (run script1 w).
Proof. revert w. induction script1 as [|a script1 IH]; intros w; [done|]. apply IH. Qed.

Lemma disabled_call_skips a w :
  is_call a → disabled w = true → (perform a w).2 = w.
Proof.
  intros Ha Hd. destruct a; try done; simpl.
  - unfold Topic.publish. unfold_M. by rewrite Hd.
  - unfold Topic.subscribe. unfold_M. by rewrite Hd.
  - unfold Topic.unsubscribe. unfold_M. by rewrite Hd.
Qed.

Lemma disabled_calls_skip script : ∀ w,
  Forall is_call script → disabled w = true → run script w = w.
Proof.
  induction script as [|a script IH]; intros w Hall Hd; [done|].
  apply Forall_cons in Hall as [Ha Hall]. simpl.
  rewrite disabled_call_skips by done. by apply IH.
Qed.

(** X1.  Whatever is asked of an ENABLED Router between a [disable()] and
    the next [enable()] is dropped, not queued: after any sequence of
    publishes, subscribes and unsubscribes wrapped in the two, every part of
    the process is exactly as it was before the [disable()]. *)
Theorem calls_while_disabled_are_dropped script w :
  Forall is_call script →
  disabled w = false →
  run (Disable :: script ++ [Enable]) w = w.
Proof.
  intros Hall Hen. change (run (Disable :: script ++ [Enable]) w)
    with (run (script ++ [Enable]) (set_disabled true w)).
  rewrite run_app. rewrite (disabled_calls_skip script); [|done|reflexivity].
  simpl. destruct w; simpl in *; by subst.
Qed.

(** The event loop does not look at the flag. *)
Lemma apply_listener_flag b f chnl data w :
  apply_listener f chnl data (set_disabled b w) =
    ((apply_listener f chnl data w).1,
     set_disabled b (apply_listener f chnl data w).2).
Proof.
  destruct f as [g|id c cb]; simpl; [done|].
  unfold Topic.subscription, deserialize.
  destruct (decide (chnl = c)); unfold call; unfold_M; [|done].
  by destruct (JSON_parse data).
Qed.

Lemma listeners_flag b chnl data ls : ∀ w,
  for_each (λ f, apply_listener f chnl data) ls (set_disabled b w) =
    ((for_each (λ f, apply_listener f chnl data) ls w).1,
     set_disabled b (for_each (λ f, apply_listener f chnl data) ls w).2).
Proof.
  induction ls as [|f ls IH]; intros w; [done|].
  simpl. unfold mbind, M_bind. rewrite apply_listener_flag.
  destruct (apply_listener f chnl data w) as [[[]|e] w1]; simpl; [apply IH|done].
Qed.

Lemma deliver_flag b w :
  deliver (set_disabled b w) = ((deliver w).1, set_disabled b (deliver w).2).
Proof.
  unfold deliver, emit. unfold mbind, M_bind, get, modify. simpl.
  destruct (subscriber w) as [[snt subs ls [|[c m] rest]]|]; simpl; try done.
  apply (listeners_flag b c m ls
           (set_subscriber (Some (mkRedis snt subs ls rest)) w)).
Qed.

Lemma turns_flag b n : ∀ w,
  turns n (set_disabled b w) = ((turns n w).1, set_disabled b (turns n w).2).
Proof.
  induction n as [|n IH]; intros w; [done|].
  simpl. unfold mbind, M_bind. rewrite deliver_flag.
  destruct (deliver w) as [[[]|e] w1]; simpl; [apply IH|done].
Qed.

(** X2.  [disable()] does not stop delivery.  The filters never test the
    flag, so the messages that wait at the subscriber when the Router is
    disabled are emitted all the same: the event loop ends the same way and
    calls the same callbacks with the same arguments, in the same order, as
    it would have without the [disable()]. *)
Theorem disable_keeps_delivering w :
  (Topic.disable;; drain) w = ((drain w).1, set_disabled true (drain w).2)
  ∧ calls ((Topic.disable;; drain) w).2 = calls (drain w).2.
Proof.
  assert (Hrun : (Topic.disable;; drain) w
                 = ((drain w).1, set_disabled true (drain w).2)).
  { unfold Topic.disable. unfold mbind, M_bind, modify.
    unfold drain. change (waiting (set_disabled true w)) with (waiting w).
    apply turns_flag. }
  split; [exact Hrun|]. by rewrite Hrun.
Qed.

(** X3.  A publish is fire-and-forget towards the rest of the process.  In
    every case, also when it throws, it calls no callback itself, leaves the
    listeners and the subscriptions of the inbound handle and the flag as
    they were, and of the caller's objects it touches the payload only. *)
Theorem publish_touches_only_the_payload channel data w :
  ∃ r w',
    Topic.publish channel data w = (r, w')
    ∧ calls w' = calls w
    ∧ disabled w' = disabled w
    ∧ closures w' = closures w
    ∧ (∀ other, other ≠ data → heap w' !! other = heap w !! other)
    ∧ listeners <$> subscriber w' = listeners <$> subscriber w
    ∧ subscribed <$> subscriber w' = subscribed <$> subscriber w
    ∧ sent <$> subscriber w' = sent <$> subscriber w.
Proof.
  assert (Hrouted : ∀ msgs,
    listeners <$> (route_all msgs <$> subscriber w) = listeners <$> subscriber w
    ∧ subscribed <$> (route_all msgs <$> subscriber w) = subscribed <$> subscriber w
    ∧ sent <$> (route_all msgs <$> subscriber w) = sent <$> subscriber w).
  { intros msgs. destruct (subscriber w) as [s|]; [|done]. simpl.
    destruct (route_all_frame msgs s) as (-> & -> & -> & _). done. }
  destruct (disabled w) eqn:Hen.
  { exists (Return ()), w. unfold Topic.publish. unfold_M. by rewrite Hen. }
  destruct (heap w !! data) as [o|] eqn:Hd.
  2:{ eexists _, w. unfold Topic.publish. unfold_M. rewrite Hen, Hd. done. }
  rewrite (publish_enabled _ _ o) by done.
  assert (Hheap : ∀ other, other ≠ data →
            heap (published channel data o w) !! other = heap w !! other).
  { intros other Hne. simpl. by rewrite lookup_insert_ne. }
  destruct (JSON_stringify (stamp channel (clock w) o)) as [e|serial].
  { eexists _, _. split; [done|]. repeat (split; [done|]). done. }
  destruct (publisher w) as [p|] eqn:Hp.
  - rewrite (sends_publisher _ p) by done.
    eexists _, _. split; [done|]. simpl.
    repeat (split; [done|]). apply (Hrouted (sends channel serial)).
  - eexists _, (published channel data o w). split.
    + unfold sends. destruct (decide (channel ≠ channels.ALL));
        simpl; unfold_M; simpl; by rewrite Hp.
    + repeat (split; [done|]). done.
Qed.

End Lifecycle.

(** X1 on the sample process. *)
Lemma calls_while_disabled_are_dropped_witness :
  run (H := MiniJSON.codec)
    [Disable; Publish "A" 0; Subscribe "A" 5; Unsubscribe "A" (Caller 5);
     Publish "all" 1; Enable] Sample.started
  = Sample.started.
Proof.
  apply (calls_while_disabled_are_dropped (H := MiniJSON.codec)
           [Publish "A" 0; Subscribe "A" 5; Unsubscribe "A" (Caller 5);
            Publish "all" 1] Sample.started).
  - repeat constructor.
  - reflexivity.
Defined.

(** X2 at work: a message published before [disable()] still reaches its
    callback after it, while a publish made after it reaches nobody. *)
Example disabled_router_still_delivers :
  let w := run (H := MiniJSON.codec)
             [Construct; Subscribe "A" 5; Publish "A" 0; Disable;
              Publish "A" 1; Turn; Turn; Turn; Turn] Sample.blank in
  disabled w = true ∧ length (invocations 5 w) = 1.
Proof. vm_compute. done. Qed.

Section Delivery.
Context `{JSON}.

Lemma stamp_stamp c1 t1 c2 t2 o :
  stamp c2 t2 (stamp c1 t1 o) = stamp c2 t2 o.
Proof.
  apply map_eq; intros k. unfold stamp.
  destruct (decide (k = "channel")) as [->|];
    [by rewrite !lookup_insert_eq|].
  destruct (decide (k = "timestamp")) as [->|].
  - rewrite !(lookup_insert_ne _ "channel") by done.
    by rewrite !lookup_insert_eq.
  - by rewrite !lookup_insert_ne.
Qed.

(** X4.  Publishing the same object a second time, on any channel, leaves
    no trace of the first publish in the envelope: the stamps of the first
    are overwritten before the second serialization, so the second publish
    sends exactly what a publish of the caller's original object on that
    channel would send, and the object ends up stamped for the second
    channel only. *)
Theorem republish_leaves_no_trace w c1 c2 data o p serial1 serial2 :
  disabled w = false →
  publisher w = Some p →
  heap w !! data = Some o →
  JSON_stringify (stamp c1 (clock w) o) = inr serial1 →
  JSON_stringify (stamp c2 (clock w) o) = inr serial2 →
  ∃ w' p',
    (Topic.publish c1 data;; Topic.publish c2 data) w = (Return (), w')
    ∧ publisher w' = Some p'
    ∧ sent p' = sent p ++ sends c1 serial1 ++ sends c2 serial2
    ∧ heap w' !! data = Some (stamp c2 (clock w) o).
Proof.
  intros Hen Hp Hd Hs1 Hs2. unfold mbind, M_bind.
  rewrite (publish_ok c1 data o p serial1) by done.
  rewrite (publish_ok c2 data (stamp c1 (clock w) o)
             (mkRedis (sent p ++ sends c1 serial1) (subscribed p)
                (listeners p) (inbox p)) serial2);
    [|exact Hen|reflexivity|simpl; apply lookup_insert_eq
     |simpl; by rewrite stamp_stamp].
  eexists _, _. split; [reflexivity|]. split; [reflexivity|]. simpl.
  split; [by rewrite <- app_assoc|].
  by rewrite lookup_insert_eq, stamp_stamp.
Qed.

(** X6.  For one publish on a channel other than "all", the global observers
    come first: when the inbound handle is subscribed to both channels and
    nothing else is waiting, the event loop first lets every listener react
    to the copy on "all" and only then to the copy on the channel, whatever
    the order in which the listeners were registered. *)
Theorem all_listeners_are_served_first w X data o p s serial :
  disabled w = false →
  publisher w = Some p →
  subscriber w = Some s →
  inbox s = [] →
  channels.ALL ∈ subscribed s →
  X ∈ subscribed s →
  X ≠ channels.ALL →
  heap w !! data = Some o →
  JSON_stringify (stamp X (clock w) o) = inr serial →
  parses serial →
  ∃ w',
    (Topic.publish X data;; drain) w = (Return (), w')
    ∧ calls w' = calls w ++ fired (listeners s) (channels.ALL, serial)
                         ++ fired (listeners s) (X, serial).
Proof.
  intros Hen Hp Hs Hin Hall HX Hne Hd Hser Hparse. unfold mbind, M_bind.
  rewrite (publish_ok X data o p serial) by done.
  set (w1 := set_subscriber _ _).
  destruct (route_all_frame (sends X serial) s) as (_ & _ & Hls & Hinb).
  assert (Hrouted : routed (sends X serial) s
                    = [(channels.ALL, serial); (X, serial)]).
  { unfold routed, sends. rewrite decide_True by done.
    rewrite !filter_cons, filter_nil. simpl. by rewrite !decide_True. }
  erewrite drain_parsed; [|subst w1; simpl; rewrite Hs; reflexivity|].
  - eexists. split; [reflexivity|]. simpl.
    rewrite Hls, Hinb, Hin, Hrouted. simpl. by rewrite app_nil_r.
  - rewrite Hinb, Hin, Hrouted. simpl. by repeat constructor.
Qed.

(** X7.  A message on a subscribed channel that [JSON.parse] refuses is not
    skipped: the first filter bound to that channel throws the parse error
    out of the emit.  Its callback is not called, and no listener registered
    after it is called for that message either, not even one that would not
    have parsed it. *)
Theorem unparsable_message_stops_the_emit w s X id cb pre post data e :
  subscriber w = Some s →
  listeners s = pre ++ Subscription id X cb :: post →
  Forall (not_bound_to X) pre →
  JSON_parse data = inl e →
  emit X data w = (Throw e, set_calls (calls w ++ fired pre (X, data)) w).
Proof.
  intros Hs Hls Hpre Hparse. unfold emit. unfold mbind, M_bind, get.
  rewrite Hs, Hls. clear Hs Hls. revert w.
  induction pre as [|f pre IH]; intros w.
  - simpl. unfold mbind, M_bind, Topic.subscription, deserialize.
    rewrite decide_True by done. rewrite Hparse. unfold throw.
    by rewrite set_calls_id.
  - apply Forall_cons in Hpre as [Hf Hpre]. simpl. unfold mbind, M_bind.
    destruct f as [g|id' c cb']; simpl in *.
    + unfold call, modify. rewrite IH by done. unfold fired. simpl.
      by rewrite <- app_assoc.
    + unfold Topic.subscription. rewrite decide_False by done.
      unfold mret, M_ret. rewrite IH by done. unfold fired. simpl.
      by rewrite decide_False.
Qed.

Lemma remove_first_keeps_others f g (l : list fn) :
  g ≠ f → g ∈ l → g ∈ remove_first f l.
Proof.
  intros Hne. induction l as [|h l IH]; [done|].
  intros [->|Hin]%elem_of_cons; simpl.
  - rewrite decide_False by done. apply list_elem_of_here.
  - destruct (decide (h = f)); [done|]. apply list_elem_of_further. by apply IH.
Qed.

Lemma remove_last_keeps_others f g (l : list fn) :
  g ≠ f → g ∈ l → g ∈ remove_last f l.
Proof.
  intros Hne Hin. unfold remove_last. apply elem_of_reverse.
  apply remove_first_keeps_others; [done|]. by apply elem_of_reverse.
Qed.

Lemma filter_agree {A} (P Q : A → Prop)
    `{∀ x, Decision (P x), ∀ x, Decision (Q x)} (l : list A) :
  Forall (λ x, P x ↔ Q x) l → filter P l = filter Q l.
Proof.
  induction l as [|x l IH]; [done|]. intros [Hx Hl]%Forall_cons.
  rewrite !filter_cons, IH by done.
  destruct (decide (P x)) as [HP|HP], (decide (Q x)) as [HQ|HQ]; try done.
  - exfalso. by apply HQ, Hx.
  - exfalso. by apply HP, Hx.
Qed.

Lemma routed_other_channel X Y serial s :
  Y ≠ X → X ≠ channels.ALL →
  filter (λ m : string * string, m.1 ∈ subscribed s ∖ {[X]}) (sends Y serial)
  = filter (λ m : string * string, m.1 ∈ subscribed s) (sends Y serial).
Proof.
  intros HY HX. apply filter_agree. apply Forall_forall.
  intros [c m] Hin. simpl.
  assert (c ≠ X) as Hc.
  { unfold sends in Hin. destruct (decide (Y ≠ channels.ALL));
      repeat (apply elem_of_cons in Hin as [[= -> _]|Hin]; [congruence|]);
      by apply not_elem_of_nil in Hin. }
  rewrite elem_of_difference, elem_of_singleton.
  split; [by intros [Hin' _]|by intros Hin'].
Qed.

Lemma waiting_subscriber r w : waiting (set_subscriber (Some r) w) = inbox r.
Proof. done. Qed.

(** X8.  [unsubscribe(X, ...)] on a channel other than "all" reaches no
    further than [X]: every other listener is still on the stream, and a
    publish on any other channel hands the inbound handle exactly the
    messages it would have been handed without the unsubscribe, the copy on
    "all" included. *)
Theorem unsubscribe_leaves_other_channels w X Y f p s data o serial :
  disabled w = false →
  publisher w = Some p →
  subscriber w = Some s →
  heap w !! data = Some o →
  JSON_stringify (stamp Y (clock w) o) = inr serial →
  Y ≠ X →
  X ≠ channels.ALL →
  ∃ w1 w2 w2' s2,
    Topic.unsubscribe X f w = (Return (), w1)
    ∧ Topic.publish Y data w1 = (Return (), w2)
    ∧ Topic.publish Y data w = (Return (), w2')
    ∧ waiting w2 = waiting w2'
    ∧ subscriber w2 = Some s2
    ∧ (∀ g, g ≠ f → g ∈ listeners s → g ∈ listeners s2).
Proof.
  intros Hen Hp Hs Hd Hser HY HX.
  set (s1 := mkRedis (sent s) (subscribed s ∖ {[X]})
               (remove_last f (listeners s)) (inbox s)).
  eexists _, _, _, _. split; [by apply (unsubscribe_ok X f s)|].
  split; [by apply (publish_ok Y data o p serial)|].
  split; [by apply (publish_ok Y data o p serial)|].
  simpl. rewrite Hs. simpl.
  destruct (route_all_frame (sends Y serial) s1) as (_ & _ & Hls1 & Hin1).
  destruct (route_all_frame (sends Y serial) s) as (_ & _ & _ & Hin).
  fold s1. split; [|split; [reflexivity|]].
  - rewrite !waiting_subscriber, Hin1, Hin. subst s1. simpl. f_equal.
    unfold routed. simpl. by apply routed_other_channel.
  - intros g Hne Hg. rewrite Hls1. subst s1. simpl.
    by apply remove_last_keeps_others.
Qed.

(** X9.  A channel silenced by an [unsubscribe] comes back with the next
    [subscribe] to it, for everybody.  After unsubscribing one filter of [X]
    and subscribing anew, every other listener is still on the stream, the
    new filter is last on it, and [X] is subscribed again; and in any later
    enabled state with these listeners, [X] subscribed and nothing waiting,
    a publish on [X] followed by the event loop reaches the new callback and
    the callback of every filter of [X] that was left on the stream. *)
Theorem resubscribe_revives_the_channel w X f cb2 s :
  disabled w = false →
  subscriber w = Some s →
  ∃ w1 s1,
    (Topic.unsubscribe X f;; Topic.subscribe X cb2) w = (Return (), w1)
    ∧ subscriber w1 = Some s1
    ∧ listeners s1
      = remove_last f (listeners s) ++ [Subscription (closures w) X cb2]
    ∧ X ∈ subscribed s1
    ∧ (∀ g, g ≠ f → g ∈ listeners s → g ∈ listeners s1)
    ∧ (∀ w2 p2 s2 data o serial o',
         disabled w2 = false →
         publisher w2 = Some p2 →
         subscriber w2 = Some s2 →
         listeners s2 = listeners s1 →
         X ∈ subscribed s2 →
         inbox s2 = [] →
         heap w2 !! data = Some o →
         JSON_stringify (stamp X (clock w2) o) = inr serial →
         JSON_parse serial = inr o' →
         ∃ w',
           (Topic.publish X data;; drain) w2 = (Return (), w')
           ∧ (cb2, Payload o') ∈ calls w'
           ∧ (∀ id cb, Subscription id X cb ∈ listeners s →
                Subscription id X cb ≠ f →
                (cb, Payload o') ∈ calls w')).
Proof.
  intros Hen Hs.
  set (s0 := mkRedis (sent s) (subscribed s ∖ {[X]})
               (remove_last f (listeners s)) (inbox s)).
  set (s1 := mkRedis (sent s0) ({[X]} ∪ subscribed s0)
               (listeners s0 ++ [Subscription (closures w) X cb2]) (inbox s0)).
  exists (set_subscriber (Some s1)
            (set_closures (S (closures w)) (set_subscriber (Some s0) w))), s1.
  split.
  { unfold mbind, M_bind. rewrite (unsubscribe_ok X f s) by done.
    by rewrite (subscribe_ok X cb2 s0). }
  split; [done|]. split; [done|]. split; [apply subscribed_after|].
  assert (Hkept : ∀ g, g ≠ f → g ∈ listeners s → g ∈ listeners s1).
  { intros g Hne Hg. subst s1 s0. simpl. apply elem_of_app. left.
    by apply remove_last_keeps_others. }
  split; [exact Hkept|].
  intros w2 p2 s2 data o serial o' Hen2 Hp2 Hs2 Hls2 HX2 Hin2 Hd Hser Hparse.
  unfold mbind, M_bind.
  rewrite (publish_ok X data o p2 serial w2) by done.
  set (w3 := set_subscriber _ _).
  destruct (route_all_frame (sends X serial) s2) as (_ & _ & Hls & Hinb).
  assert (Hs3 : subscriber w3 = Some (route_all (sends X serial) s2)).
  { subst w3. simpl. by rewrite Hs2. }
  assert (Hmsg : (X, serial) ∈ routed (sends X serial) s2).
  { unfold routed. apply list_elem_of_filter. split; [done|].
    unfold sends. destruct (decide (X ≠ channels.ALL));
      [apply list_elem_of_further|]; apply list_elem_of_here. }
  assert (Hwaiting : inbox (route_all (sends X serial) s2)
                     = routed (sends X serial) s2).
  { by rewrite Hinb, Hin2. }
  assert (Hparses : Forall (λ m : string * string, parses m.2)
                      (inbox (route_all (sends X serial) s2))).
  { rewrite Hwaiting. apply Forall_filter_keep. unfold sends.
    destruct (decide (X ≠ channels.ALL));
      repeat (apply Forall_cons; split; [by exists o'|]); constructor. }
  rewrite (drain_parsed _ w3 Hs3 Hparses).
  eexists. split; [reflexivity|].
  assert (Hfire : ∀ id cb,
    Subscription id X cb ∈ listeners s2 →
    (cb, Payload o') ∈ calls w3 ++ flat_map (fired (listeners s2))
                                     (routed (sends X serial) s2)).
  { intros id cb Hl. apply elem_of_app. right.
    apply list_elem_of_In, in_flat_map. exists (X, serial).
    split; [by apply list_elem_of_In|].
    unfold fired. apply in_flat_map. exists (Subscription id X cb).
    split; [by apply list_elem_of_In|]. simpl.
    rewrite decide_True by done. rewrite Hparse. by left. }
  simpl. rewrite Hls, Hwaiting. split.
  - apply (Hfire (closures w)). rewrite Hls2. subst s1. simpl.
    apply elem_of_app. right. apply list_elem_of_here.
  - intros id cb Hl Hne. apply (Hfire id). rewrite Hls2. by apply Hkept.
Qed.

(** ** A listener on "all" *)

Lemma publishes_anywhere_ok : ∀ pubs serials w p,
  disabled w = false →
  publisher w = Some p →
  Forall2 (λ (cd : string * loc) serial,
             ∃ o, heap w !! cd.2 = Some o
               ∧ JSON_stringify (stamp cd.1 (clock w) o) = inr serial)
    pubs serials →
  ∃ w',
    for_each (λ cd, Topic.publish cd.1 cd.2) pubs w = (Return (), w')
    ∧ subscriber w' =
        route_all (flat_map (λ x, sends x.1.1 x.2) (zip pubs serials))
          <$> subscriber w
    ∧ calls w' = calls w.
Proof.
  induction pubs as [|[c d] pubs IH]; intros serials w p Hen Hp Hall.
  - apply Forall2_nil_inv_l in Hall as ->. exists w. simpl.
    split; [done|]. by destruct (subscriber w).
  - apply Forall2_cons_inv_l in Hall
      as (serial & rest & (o & Hd & Hser) & Hall & ->).
    simpl in Hd, Hser. simpl. unfold mbind, M_bind.
    rewrite (publish_ok c d o p serial) by done.
    set (w1 := set_subscriber _ _).
    destruct (IH rest w1 (mkRedis (sent p ++ sends c serial) (subscribed p)
                           (listeners p) (inbox p))) as (w' & -> & Hs' & Hc');
      [done|done| |].
    + eapply Forall2_impl; [exact Hall|].
      intros [c' d'] serial' (o' & Hd' & Hser'). simpl in *.
      subst w1. simpl. destruct (decide (d = d')) as [->|Hne].
      * rewrite lookup_insert_eq. eexists. split; [done|].
        rewrite stamp_stamp. congruence.
      * rewrite lookup_insert_ne by done. eauto.
    + exists w'. split; [done|]. split; [|done].
      rewrite Hs'. subst w1. simpl.
      destruct (subscriber w) as [s|]; [|done]. simpl.
      by rewrite route_all_app.
Qed.

Lemma invocations_on_all cb ls s :
  (∀ c serial o',
     JSON_parse serial = inr o' →
     filter (λ call : callback * args, call.1 = cb) (fired ls (c, serial))
     = if decide (c = channels.ALL) then [(cb, Payload o')] else []) →
  channels.ALL ∈ subscribed s →
  ∀ (pubs : list (string * loc)) serials os,
    length pubs = length serials →
    Forall2 (λ serial o', JSON_parse serial = inr o') serials os →
    filter (λ call : callback * args, call.1 = cb)
      (flat_map (fired ls)
         (routed (flat_map (λ x, sends x.1.1 x.2) (zip pubs serials)) s))
    = map (λ o', (cb, Payload o')) os.
Proof.
  intros Hone Hall pubs. induction pubs as [|[c d] pubs IH];
    intros serials os Hlen Hparse.
  - destruct serials; [|done]. by apply Forall2_nil_inv_l in Hparse as ->.
  - destruct serials as [|serial serials]; [done|].
    apply Forall2_cons_inv_l in Hparse as (o' & os' & Hp & Hparse & ->).
    injection Hlen as Hlen. simpl.
    unfold routed in *. rewrite filter_app, flat_map_app, filter_app.
    rewrite (IH serials os') by done.
    change ((cb, Payload o') :: map (λ o, (cb, Payload o)) os')
      with ([(cb, Payload o')] ++ map (λ o : object, (cb, Payload o)) os').
    f_equal. unfold sends.
    destruct (decide (c ≠ channels.ALL)) as [Hne|Heq].
    + rewrite !filter_cons, filter_nil. simpl.
      rewrite (decide_True _ _ Hall).
      destruct (decide (c ∈ subscribed s)); simpl.
      * rewrite app_nil_r, filter_app, !(Hone _ serial o') by done.
        rewrite decide_True by done. by rewrite decide_False.
      * rewrite app_nil_r, (Hone _ serial o') by done.
        by rewrite decide_True.
    + assert (c = channels.ALL) as -> by (by destruct (decide (c = channels.ALL))).
      rewrite filter_cons, filter_nil. simpl. rewrite (decide_True _ _ Hall).
      simpl. rewrite app_nil_r, (Hone _ serial o') by done.
      by rewrite decide_True.
Qed.

(** X5.  A subscriber of "all" hears every publish once.  When one filter
    of "all" with callback [cb] is on the stream, the stream knows [cb] in
    no other listener, the inbound handle is subscribed to "all" and nothing
    is waiting, any sequence of publishes on any channels, "all" itself
    included, followed by the event loop calls [cb] exactly once per
    publish, with the parsed envelopes in publish order, whatever else the
    inbound handle is subscribed to. *)
Theorem all_subscriber_hears_every_publish w cb id p s pre post pubs serials os :
  disabled w = false →
  publisher w = Some p →
  subscriber w = Some s →
  listeners s = pre ++ Subscription id channels.ALL cb :: post →
  absent cb pre →
  absent cb post →
  channels.ALL ∈ subscribed s →
  inbox s = [] →
  Forall2 (λ (cd : string * loc) serial,
             ∃ o, heap w !! cd.2 = Some o
               ∧ JSON_stringify (stamp cd.1 (clock w) o) = inr serial)
    pubs serials →
  Forall2 (λ serial o', JSON_parse serial = inr o') serials os →
  ∃ w',
    (for_each (λ cd, Topic.publish cd.1 cd.2) pubs;; drain) w = (Return (), w')
    ∧ invocations cb w' = invocations cb w ++ map (λ o', (cb, Payload o')) os
    ∧ length os = length pubs.
Proof.
  intros Hen Hp Hs Hlist Hpre Hpost Hall Hempty Hser Hparse.
  unfold mbind, M_bind.
  destruct (publishes_anywhere_ok pubs serials w p) as (w2 & -> & Hs2 & Hc2);
    [done..|].
  rewrite Hs in Hs2. simpl in Hs2.
  set (msgs := flat_map (λ x : string * loc * string, sends x.1.1 x.2)
                 (zip pubs serials)) in *.
  destruct (route_all_frame msgs s) as (_ & _ & Hls & Hinb).
  assert (Hlen : length pubs = length serials) by (by eapply Forall2_length).
  erewrite drain_parsed; [|exact Hs2|].
  - eexists. split; [reflexivity|]. split.
    + unfold invocations. simpl. rewrite Hc2, filter_app. f_equal.
      rewrite Hls, Hinb, Hempty, Hlist. simpl.
      apply invocations_on_all; [|done|done|done].
      intros c serial o' Ho'. by apply filter_fires_once.
    + apply Forall2_length in Hparse. congruence.
  - rewrite Hinb, Hempty. simpl.
    apply Forall_filter_keep. apply Forall_forall.
    intros [c m] Hm. subst msgs.
    apply list_elem_of_In, in_flat_map in Hm as ([[c' d'] serial] & Hin & Hm).
    simpl in Hm. simpl.
    assert (m = serial) as ->.
    { unfold sends in Hm. destruct (decide (c' ≠ channels.ALL));
        simpl in Hm; intuition congruence. }
    apply list_elem_of_In, elem_of_zip_r in Hin.
    apply list_elem_of_lookup in Hin as [i Hi].
    destruct (Forall2_lookup_l _ _ _ _ _ Hparse Hi) as (o' & _ & Ho').
    by exists o'.
Qed.

End Delivery.

Section Teardown.
Context `{JSON}.

Lemma turns_unheard n : ∀ snt subs msgs w,
  subscriber w = Some (mkRedis snt subs [] msgs) →
  ∃ w', turns n w = (Return (), w') ∧ calls w' = calls w.
Proof.
  induction n as [|n IH]; intros snt subs msgs w Hs; [by exists w|].
  simpl. unfold mbind, M_bind, deliver. unfold mbind, M_bind, get, modify.
  rewrite Hs. destruct msgs as [|[c m] rest].
  - unfold mret, M_ret. by apply (IH snt subs []).
  - unfold emit. unfold mbind, M_bind, get. simpl.
    destruct (IH snt subs rest
                (set_subscriber (Some (mkRedis snt subs [] rest)) w))
      as (w' & Hrun & Hc); [done|].
    exists w'. by split.
Qed.

(** X10.  [disconnect()] on a Router with both handles leaves it DISABLED
    with no listener on either client and tells both connections to close;
    the caller's objects and the record of calls are untouched.  Afterwards
    [publish], [subscribe] and [unsubscribe] return without doing anything,
    the messages still waiting at the subscriber reach no callback, and a
    second [disconnect()] changes nothing and does not throw. *)
Theorem disconnect_silences_the_router w k p s :
  publisher w = Some p →
  subscriber w = Some s →
  ∃ w',
    disconnect w k = (Return (), w', mkSockets true true)
    ∧ disabled w' = true
    ∧ listeners <$> subscriber w' = Some []
    ∧ listeners <$> publisher w' = Some []
    ∧ heap w' = heap w
    ∧ calls w' = calls w
    ∧ (∀ channel data cb f,
         Topic.publish channel data w' = (Return (), w')
         ∧ Topic.subscribe channel cb w' = (Return (), w')
         ∧ Topic.unsubscribe channel f w' = (Return (), w'))
    ∧ (∃ w'', drain w' = (Return (), w'') ∧ calls w'' = calls w)
    ∧ disconnect w' (mkSockets true true) = (Return (), w', mkSockets true true).
Proof.
  intros Hp Hs.
  exists (set_publisher (Some (Redis_removeAllListeners p))
            (set_subscriber (Some (Redis_removeAllListeners s))
               (set_disabled true w))).
  split.
  { unfold disconnect, Topic.disable, subscriber_do, publisher_do.
    unfold mbind, M_bind, modify. simpl. rewrite Hs. simpl. by rewrite Hp. }
  repeat (split; [done|]). split; [|done].
  unfold drain, waiting. simpl.
  destruct (turns_unheard (length (inbox s)) (sent s) (subscribed s) (inbox s)
              (set_publisher (Some (Redis_removeAllListeners p))
                 (set_subscriber (Some (Redis_removeAllListeners s))
                    (set_disabled true w)))) as (w'' & Hrun & Hc); [done|].
  exists w''. by split.
Qed.

(** ** What stays true of the two handles *)

Lemma Forall_remove_first (P : fn → Prop) f (l : list fn) :
  Forall P l → Forall P (remove_first f l).
Proof.
  induction l as [|g l IH]; [done|]. intros [Hg Hl]%Forall_cons. simpl.
  destruct (decide (g = f)); [done|]. apply Forall_cons. split; [done|].
  by apply IH.
Qed.

Lemma Forall_remove_last (P : fn → Prop) f (l : list fn) :
  Forall P l → Forall P (remove_last f l).
Proof.
  intros Hl. unfold remove_last. apply Forall_reverse, Forall_remove_first.
  by apply Forall_reverse.
Qed.

Lemma publish_keeps_separated channel data w :
  separated w → separated (Topic.publish channel data w).2.
Proof.
  intros [Hpub Hsub].
  destruct (disabled w) eqn:Hen.
  { unfold Topic.publish. unfold_M. by rewrite Hen. }
  destruct (heap w !! data) as [o|] eqn:Hd.
  2:{ unfold Topic.publish. unfold_M. by rewrite Hen, Hd. }
  rewrite (publish_enabled _ _ o) by done.
  destruct (JSON_stringify (stamp channel (clock w) o)) as [e|serial];
    [done|].
  destruct (publisher w) as [p|] eqn:Hp.
  - rewrite (sends_publisher _ p) by done. simpl. split.
    + intros p' [= <-]. simpl. by apply Hpub.
    + intros s' Hs'. simpl in Hs'.
      destruct (subscriber w) as [s|] eqn:Hs; [|done].
      injection Hs' as <-.
      destruct (route_all_frame (sends channel serial) s) as (-> & _ & -> & _).
      by apply Hsub.
  - assert (Hthrow : (for_each (λ m, publisher_publish m.1 m.2)
                        (sends channel serial) (published channel data o w)).2
                     = published channel data o w).
    { unfold sends. destruct (decide (channel ≠ channels.ALL));
        simpl; unfold_M; simpl; by rewrite Hp. }
    rewrite Hthrow. split; simpl.
    + intros p'. by rewrite Hp.
    + done.
Qed.

Lemma separated_perform a w : separated w → separated (perform a w).2.
Proof.
  intros Hsep. destruct a as [| | |channel data|channel cb|channel f|]; simpl.
  - split; intros r [= <-]; done.
  - done.
  - done.
  - by apply publish_keeps_separated.
  - destruct Hsep as [Hpub Hsub]. destruct (disabled w) eqn:Hen.
    { unfold Topic.subscribe. unfold_M. by rewrite Hen. }
    destruct (subscriber w) as [s|] eqn:Hs.
    + rewrite (subscribe_ok _ _ s) by done. simpl. split; [done|].
      intros s' [= <-]. simpl. destruct (Hsub s eq_refl) as [Hsent Hls].
      split; [done|]. apply Forall_app. split; [done|]. by repeat constructor.
    + unfold Topic.subscribe. unfold_M. rewrite Hen, Hs. simpl.
      split; [done|]. intros s'. simpl. by rewrite Hs.
  - destruct Hsep as [Hpub Hsub]. destruct (disabled w) eqn:Hen.
    { unfold Topic.unsubscribe. unfold_M. by rewrite Hen. }
    destruct (subscriber w) as [s|] eqn:Hs.
    + rewrite (unsubscribe_ok _ _ s) by done. simpl. split; [done|].
      intros s' [= <-]. simpl. destruct (Hsub s eq_refl) as [Hsent Hls].
      split; [done|]. by apply Forall_remove_last.
    + unfold Topic.unsubscribe. unfold_M. rewrite Hen, Hs. simpl.
      split; [done|]. intros s'. simpl. by rewrite Hs.
  - destruct Hsep as [Hpub Hsub].
    destruct (deliver_frame w) as (r & w' & -> & _ & _ & Hp' & _ & Hs'). simpl.
    split.
    + intros p. rewrite Hp'. apply Hpub.
    + intros s'. rewrite Hs'. destruct (subscriber w) as [s|]; [|done].
      intros [= <-]. simpl. by apply Hsub.
Qed.

Lemma separated_run script : ∀ w, separated w → separated (run script w).
Proof.
  induction script as [|a script IH]; intros w Hsep; [done|].
  simpl. by apply IH, separated_perform.
Qed.

(** X11.  In every process reached from the loading of the module by calls
    of the methods and turns of the event loop, the publisher has never
    subscribed or listened, the subscriber has never sent, and nothing but
    arrow functions created by [subscribe] is on the stream.  The caller's
    own callback is therefore never a listener, and [unsubscribe] called
    with it takes no listener off the stream. *)
Theorem stream_holds_only_filters script w X cb :
  let w' := run (Construct :: script) w in
  separated w'
  ∧ listeners <$> subscriber (Topic.unsubscribe X (Caller cb) w').2
    = listeners <$> subscriber w'.
Proof.
  intros w'.
  assert (Hsep : separated w').
  { subst w'. change (run (Construct :: script) w)
      with (run script (Topic.constructor w).2).
    apply separated_run. simpl. split; intros r [= <-]; done. }
  split; [exact Hsep|].
  destruct (disabled w') eqn:Hen.
  { unfold Topic.unsubscribe. unfold_M. by rewrite Hen. }
  destruct (subscriber w') as [s|] eqn:Hs.
  - rewrite (unsubscribe_ok _ _ s) by done. simpl.
    f_equal. apply remove_last_notin.
    destruct Hsep as [_ Hsub]. destruct (Hsub s Hs) as [_ Hls].
    intros Hin. rewrite Forall_forall in Hls. by apply Hls in Hin.
  - unfold Topic.unsubscribe. unfold_M. rewrite Hen, Hs. simpl. by rewrite Hs.
Qed.

(** ** A subscription taken back *)

Lemma remove_last_appended f (l : list fn) : remove_last f (l ++ [f]) = l.
Proof.
  unfold remove_last. rewrite reverse_app. simpl.
  rewrite decide_True by done. apply reverse_involutive.
Qed.

(** X12.  A [subscribe] taken back at once with the handle of its own
    filter puts the stream back as it was, filter for filter, and leaves the
    waiting messages alone; but the channel ends up unsubscribed at the
    transport also when it had been subscribed before that [subscribe], and
    the identity of the removed filter is never given out again. *)
Theorem subscribe_then_unsubscribe w X cb s :
  disabled w = false →
  subscriber w = Some s →
  ∃ w' s',
    (Topic.subscribe X cb;;
     Topic.unsubscribe X (Subscription (closures w) X cb)) w = (Return (), w')
    ∧ subscriber w' = Some s'
    ∧ listeners s' = listeners s
    ∧ subscribed s' = subscribed s ∖ {[X]}
    ∧ inbox s' = inbox s
    ∧ closures w' = S (closures w)
    ∧ (X ∉ subscribed s → w' = set_closures (S (closures w)) w).
Proof.
  intros Hen Hs. unfold mbind, M_bind.
  rewrite (subscribe_ok X cb s) by done.
  erewrite unsubscribe_ok; [|exact Hen|reflexivity]. simpl.
  rewrite remove_last_appended.
  assert (Hsubs : ({[X]} ∪ subscribed s) ∖ {[X]} = subscribed s ∖ {[X]}).
  { apply set_eq. intros c.
    rewrite !elem_of_difference, elem_of_union, elem_of_singleton. tauto. }
  rewrite Hsubs.
  eexists _, _. split; [reflexivity|]. split; [reflexivity|]. simpl.
  repeat (split; [done|]).
  intros HX. rewrite unsubscribe_not_subscribed by done.
  destruct w, s; simpl in *; by subst.
Qed.

End Teardown.

(** ** The further properties at work on the sample process *)

(** X3: a publish that throws after having stamped its payload. *)
Lemma publish_touches_only_the_payload_witness :
  ∃ r w',
    Topic.publish (H := MiniJSON.codec) "A" 2 Sample.started = (r, w')
    ∧ calls w' = []
    ∧ heap w' !! 0 = Some Sample.hello
    ∧ heap w' !! 1 = Some Sample.stale.
Proof.
  destruct (publish_touches_only_the_payload (H := MiniJSON.codec) "A" 2
              Sample.started) as (r & w' & Hrun & Hc & _ & _ & Hheap & _).
  exists r, w'. split; [exact Hrun|]. split; [exact Hc|].
  rewrite !Hheap by discriminate. split; vm_compute; reflexivity.
Defined.

(** X4: the object published on "A" and then on "B". *)
Lemma republish_leaves_no_trace_witness :
  ∃ w' p',
    (Topic.publish (H := MiniJSON.codec) "A" 0;;
     Topic.publish (H := MiniJSON.codec) "B" 0) Sample.started = (Return (), w')
    ∧ publisher w' = Some p'
    ∧ sent p' = [("all", Sample.wire "A" Sample.hello);
                 ("A", Sample.wire "A" Sample.hello);
                 ("all", Sample.wire "B" Sample.hello);
                 ("B", Sample.wire "B" Sample.hello)]
    ∧ heap w' !! 0 = Some (stamp "B" Sample.now Sample.hello).
Proof.
  apply (republish_leaves_no_trace (H := MiniJSON.codec) Sample.started
           "A" "B" 0 Sample.hello new_Redis
           (Sample.wire "A" Sample.hello) (Sample.wire "B" Sample.hello));
    vm_compute; reflexivity.
Defined.

(** X5: publishes on "A", on "all" and on "B" heard by one subscriber of
    "all", between two filters of "A". *)
Lemma all_subscriber_hears_every_publish_witness :
  let w := Sample.listening
             [Subscription 0 "A" 5; Subscription 1 "all" 9; Subscription 2 "A" 6]
             ({[ "all" ]} ∪ {[ "A" ]}) in
  ∃ w',
    (for_each (λ cd, Topic.publish (H := MiniJSON.codec) cd.1 cd.2)
       [("A", 0); ("all", 1); ("B", 0)];;
     drain (H := MiniJSON.codec)) w = (Return (), w')
    ∧ invocations 9 w' =
        [(9, Payload (stamp "A" Sample.now Sample.hello));
         (9, Payload (stamp "all" Sample.now Sample.stale));
         (9, Payload (stamp "B" Sample.now Sample.hello))].
Proof.
  intros w.
  destruct (all_subscriber_hears_every_publish (H := MiniJSON.codec)
              w 9 1 new_Redis
              (mkRedis [] ({[ "all" ]} ∪ {[ "A" ]})
                 [Subscription 0 "A" 5; Subscription 1 "all" 9;
                  Subscription 2 "A" 6] [])
              [Subscription 0 "A" 5] [Subscription 2 "A" 6]
              [("A", 0); ("all", 1); ("B", 0)]
              [Sample.wire "A" Sample.hello; Sample.wire "all" Sample.stale;
               Sample.wire "B" Sample.hello]
              [stamp "A" Sample.now Sample.hello;
               stamp "all" Sample.now Sample.stale;
               stamp "B" Sample.now Sample.hello])
    as (w' & Hrun & Hcalls & _).
  - reflexivity.
  - reflexivity.
  - reflexivity.
  - reflexivity.
  - constructor; [discriminate|constructor].
  - constructor; [discriminate|constructor].
  - vm_compute. reflexivity.
  - reflexivity.
  - repeat (apply Forall2_cons; split;
              [eexists; split; vm_compute; reflexivity|]).
    apply Forall2_nil_2; reflexivity.
  - repeat (apply Forall2_cons; split; [vm_compute; reflexivity|]).
    apply Forall2_nil_2; reflexivity.
  - exists w'. split; [exact Hrun|exact Hcalls].
Defined.

(** X6: the listener on "all" was registered last and is called first. *)
Lemma all_listeners_are_served_first_witness :
  let w := run (H := MiniJSON.codec)
             [Construct; Subscribe "X" 1; Subscribe "all" 2] Sample.blank in
  ∃ w',
    (Topic.publish (H := MiniJSON.codec) "X" 0;; drain (H := MiniJSON.codec)) w
      = (Return (), w')
    ∧ map fst (calls w') = [2; 1].
Proof.
  intros w.
  destruct (all_listeners_are_served_first (H := MiniJSON.codec) w "X" 0
              Sample.hello new_Redis
              (mkRedis [] ({[ "all" ]} ∪ ({[ "X" ]} ∪ ∅))
                 [Subscription 0 "X" 1; Subscription 1 "all" 2] [])
              (Sample.wire "X" Sample.hello)) as (w' & Hrun & Hcalls).
  - reflexivity.
  - reflexivity.
  - reflexivity.
  - reflexivity.
  - vm_compute. reflexivity.
  - vm_compute. reflexivity.
  - discriminate.
  - vm_compute. reflexivity.
  - vm_compute. reflexivity.
  - eexists. vm_compute. reflexivity.
  - exists w'. split; [exact Hrun|]. rewrite Hcalls. vm_compute. reflexivity.
Defined.

(** X7: a message that is not JSON, on a channel with two filters. *)
Lemma unparsable_message_stops_the_emit_witness :
  let w := run (H := MiniJSON.codec)
             [Construct; Subscribe "Y" 1; Subscribe "X" 2; Subscribe "X" 3]
             Sample.blank in
  emit (H := MiniJSON.codec) "X" "junk" w
  = (Throw (SyntaxError "Unexpected token in JSON"), w).
Proof.
  intros w.
  rewrite (unparsable_message_stops_the_emit (H := MiniJSON.codec) w
             (mkRedis [] ({[ "X" ]} ∪ ({[ "X" ]} ∪ ({[ "Y" ]} ∪ ∅)))
                [Subscription 0 "Y" 1; Subscription 1 "X" 2;
                 Subscription 2 "X" 3] [])
             "X" 1 2 [Subscription 0 "Y" 1] [Subscription 2 "X" 3] "junk"
             (SyntaxError "Unexpected token in JSON")).
  - reflexivity.
  - reflexivity.
  - reflexivity.
  - constructor; [discriminate|constructor].
  - reflexivity.
Defined.

(** X8: "X" unsubscribed, then a publish on "Y". *)
Lemma unsubscribe_leaves_other_channels_witness :
  let w := run (H := MiniJSON.codec)
             [Construct; Subscribe "X" 1; Subscribe "Y" 2] Sample.blank in
  ∃ w1 w2,
    Topic.unsubscribe "X" (Subscription 0 "X" 1) w = (Return (), w1)
    ∧ Topic.publish (H := MiniJSON.codec) "Y" 0 w1 = (Return (), w2)
    ∧ waiting w2 = waiting (Topic.publish (H := MiniJSON.codec) "Y" 0 w).2.
Proof.
  intros w.
  destruct (unsubscribe_leaves_other_channels (H := MiniJSON.codec) w "X" "Y"
              (Subscription 0 "X" 1) new_Redis
              (mkRedis [] ({[ "Y" ]} ∪ ({[ "X" ]} ∪ ∅))
                 [Subscription 0 "X" 1; Subscription 1 "Y" 2] [])
              0 Sample.hello (Sample.wire "Y" Sample.hello))
    as (w1 & w2 & w2' & s2 & Hun & Hpub & Hpub' & Hwait & _).
  - reflexivity.
  - reflexivity.
  - reflexivity.
  - vm_compute. reflexivity.
  - vm_compute. reflexivity.
  - discriminate.
  - discriminate.
  - exists w1, w2. split; [exact Hun|]. split; [exact Hpub|].
    rewrite Hpub'. exact Hwait.
Defined.

(** X9: one of two filters of "X" unsubscribed, then a new subscriber; the
    publish is made later, from a state in which "X" is subscribed. *)
Lemma resubscribe_revives_the_channel_witness :
  let w := Sample.listening
             [Subscription 0 "X" 1; Subscription 1 "X" 2] {[ "X" ]} in
  let later := Sample.listening
                 [Subscription 1 "X" 2; Subscription 2 "X" 3] {[ "X" ]} in
  ∃ w1 s1,
    (Topic.unsubscribe "X" (Subscription 0 "X" 1);; Topic.subscribe "X" 3) w
      = (Return (), w1)
    ∧ subscriber w1 = Some s1
    ∧ listeners s1 = [Subscription 1 "X" 2; Subscription 2 "X" 3]
    ∧ ∃ w',
        (Topic.publish (H := MiniJSON.codec) "X" 0;;
         drain (H := MiniJSON.codec)) later = (Return (), w')
        ∧ (3, Payload (stamp "X" Sample.now Sample.hello)) ∈ calls w'
        ∧ (2, Payload (stamp "X" Sample.now Sample.hello)) ∈ calls w'.
Proof.
  intros w later.
  destruct (resubscribe_revives_the_channel (H := MiniJSON.codec) w "X"
              (Subscription 0 "X" 1) 3
              (mkRedis [] {[ "X" ]}
                 [Subscription 0 "X" 1; Subscription 1 "X" 2] []))
    as (w1 & s1 & Hrun & Hs1 & Hls & _ & _ & Hlater); [reflexivity..|].
  assert (Hls1 : listeners s1 = [Subscription 1 "X" 2; Subscription 2 "X" 3]).
  { rewrite Hls. vm_compute. reflexivity. }
  exists w1, s1. split; [exact Hrun|]. split; [exact Hs1|].
  split; [exact Hls1|].
  destruct (Hlater later new_Redis
              (mkRedis [] {[ "X" ]}
                 [Subscription 1 "X" 2; Subscription 2 "X" 3] [])
              0 Sample.hello (Sample.wire "X" Sample.hello)
              (stamp "X" Sample.now Sample.hello))
    as (w' & Hpub & Hnew & Hold).
  - reflexivity.
  - reflexivity.
  - reflexivity.
  - by rewrite Hls1.
  - vm_compute. reflexivity.
  - reflexivity.
  - vm_compute. reflexivity.
  - vm_compute. reflexivity.
  - vm_compute. reflexivity.
  - exists w'. split; [exact Hpub|]. split; [exact Hnew|].
    apply (Hold 1 2); [|discriminate].
    simpl. apply list_elem_of_further, list_elem_of_here.
Defined.

(** X10: the sample process with one subscriber and one message waiting. *)
Lemma disconnect_silences_the_router_witness :
  let w := run (H := MiniJSON.codec)
             [Construct; Subscribe "A" 5; Publish "A" 0] Sample.blank in
  length (waiting w) = 1
  ∧ ∃ w',
      disconnect w (mkSockets false false) = (Return (), w', mkSockets true true)
      ∧ disabled w' = true
      ∧ ∃ w'', drain (H := MiniJSON.codec) w' = (Return (), w'') ∧ calls w'' = [].
Proof.
  intros w. split; [vm_compute; reflexivity|].
  destruct (disconnect_silences_the_router (H := MiniJSON.codec) w
              (mkSockets false false)
              (mkRedis [("all", Sample.wire "A" Sample.hello);
                        ("A", Sample.wire "A" Sample.hello)] ∅ [] [])
              (mkRedis [] ({[ "A" ]} ∪ ∅) [Subscription 0 "A" 5]
                 [("A", Sample.wire "A" Sample.hello)]))
    as (w' & Hrun & Hd & _ & _ & _ & _ & _ & Hdrain & _).
  - vm_compute. reflexivity.
  - vm_compute. reflexivity.
  - exists w'. split; [exact Hrun|]. split; [exact Hd|exact Hdrain].
Defined.

(** X12: "A" was subscribed by another filter before. *)
Lemma subscribe_then_unsubscribe_witness :
  let w := run (H := MiniJSON.codec) [Construct; Subscribe "A" 5] Sample.blank in
  ∃ w' s',
    (Topic.subscribe "A" 6;; Topic.unsubscribe "A" (Subscription 1 "A" 6)) w
      = (Return (), w')
    ∧ subscriber w' = Some s'
    ∧ listeners s' = [Subscription 0 "A" 5]
    ∧ "A" ∉ subscribed s'.
Proof.
  intros w.
  destruct (subscribe_then_unsubscribe w "A" 6
              (mkRedis [] ({[ "A" ]} ∪ ∅) [Subscription 0 "A" 5] []))
    as (w' & s' & Hrun & Hs' & Hls & Hsubs & _); [reflexivity..|].
  exists w', s'. split; [exact Hrun|]. split; [exact Hs'|].
  split; [exact Hls|]. rewrite Hsubs. apply unsubscribed_after.
Defined.
